(** * alpha_pkg_node: blob follower with obstacle avoidance

    A shallow embedding of [src/alpha_pkg/src/alpha_pkg_node.cpp]: the three
    sensor callbacks ([blobsCallBack], [PointCloud_Callback],
    [Bumper_Callback]), the motion primitives ([rotate], [seek], [advance],
    [retreat]) and the body of the control loop of [main].

    - C++ [float] and [double] are IEEE-754 binary32 and binary64, modelled
      bit-accurately with the Standard Library's [SpecFloat] (round to
      nearest, ties to even). Every operation is rounded to the type C++
      gives it ([float] times [float] is a [float], [float] times [double]
      a [double]), and [std::abs] on a [float] is the [float] overload.
    - [uint16_t], [uint32_t] and [int] are [Z] with the wrap-around written
      out.
    - [std::vector] is a list; indexing past its end is undefined behaviour
      in C++ and is [None] here.
    - The global variables written by the callbacks form the record
      [Perception]; the global [state] is the controller state.
    - [velocityPublisher.publish] appends to a list of [Twist] messages. *)

From Stdlib Require Import ZArith Bool Lia.
From Stdlib Require Import Floats.SpecFloat.
From stdpp Require Import base numbers list.

Local Open Scope Z_scope.

(** ** Floating point *)

(** [float]: IEEE-754 binary32. *)
Module F32.
Definition prec : Z := 24.
Definition emax : Z := 128.
Definition valid (x : spec_float) : bool := valid_binary prec emax x.
Definition round (s : bool) (m : positive) (e : Z) : spec_float :=
  binary_round prec emax s m e.
Definition of_Z (z : Z) : spec_float := binary_normalize prec emax z 0 false.
Definition add : spec_float -> spec_float -> spec_float := SFadd prec emax.
Definition sub : spec_float -> spec_float -> spec_float := SFsub prec emax.
Definition mul : spec_float -> spec_float -> spec_float := SFmul prec emax.
Definition div : spec_float -> spec_float -> spec_float := SFdiv prec emax.
End F32.

(** [double]: IEEE-754 binary64. *)
Module F64.
Definition prec : Z := 53.
Definition emax : Z := 1024.
Definition valid (x : spec_float) : bool := valid_binary prec emax x.
Definition round (s : bool) (m : positive) (e : Z) : spec_float :=
  binary_round prec emax s m e.
Definition of_Z (z : Z) : spec_float := binary_normalize prec emax z 0 false.
Definition add : spec_float -> spec_float -> spec_float := SFadd prec emax.
Definition sub : spec_float -> spec_float -> spec_float := SFsub prec emax.
Definition mul : spec_float -> spec_float -> spec_float := SFmul prec emax.
Definition div : spec_float -> spec_float -> spec_float := SFdiv prec emax.
(** A decimal literal [n/d] of the source text: the double nearest to it
    (IEEE division of the two exactly represented integers). *)
Definition lit (n d : Z) : spec_float := div (of_Z n) (of_Z d).
End F64.

(** Conversions between the two formats: [float] to [double] is exact,
    [double] to [float] rounds. *)
Definition double_of_float (x : spec_float) : spec_float :=
  match x with
  | S754_finite s m e => F64.round s m e
  | _ => x
  end.

Definition float_of_double (x : spec_float) : spec_float :=
  match x with
  | S754_finite s m e => F32.round s m e
  | _ => x
  end.

(** [<] and [>] of C++ on values of one format (false on NaN). *)
Definition flt (x y : spec_float) : bool := SFltb x y.
Definition fgt (x y : spec_float) : bool := SFltb y x.

(** ** Machine integers *)

Definition wrap_uint16 (z : Z) : Z := z mod 2 ^ 16.
Definition wrap_uint32 (z : Z) : Z := z mod 2 ^ 32.
(** [int]: 32 bits, two's complement. Conversions to [int] and [int]
    arithmetic wrap around, as the compilers of the target platform do. *)
Definition wrap_int (z : Z) : Z := (z + 2 ^ 31) mod 2 ^ 32 - 2 ^ 31.

Definition is_uint16 (z : Z) : Prop := 0 <= z < 2 ^ 16.
Definition is_uint32 (z : Z) : Prop := 0 <= z < 2 ^ 32.

(** ** Messages *)

(** [cmvision::Blob]: every numeric field is a [uint32]. *)
Record Blob : Type := mkBlob {
  red : Z; green : Z; blue : Z;
  area : Z;
  x : Z; y : Z
}.

(** [cmvision::Blobs]. *)
Record Blobs : Type := mkBlobs {
  blob_count : Z;
  blobs : list Blob
}.

(** [pcl::PointXYZ]: three [float] coordinates. *)
Record PointXYZ : Type := mkPoint {
  pt_x : spec_float; pt_y : spec_float; pt_z : spec_float
}.

(** [pcl::PointCloud<pcl::PointXYZ>]: the code reads [points] only. *)
Record PointCloud : Type := mkCloud {
  points : list PointXYZ
}.

(** [kobuki_msgs::BumperEvent]: [state] is 1 when pressed, 0 when
    released. *)
Record BumperEvent : Type := mkBumper {
  bumper : Z;
  bumper_state : Z
}.

(** [geometry_msgs::Twist]: six [double] fields. *)
Record Vector3 : Type := mkVector3 {
  vx : spec_float; vy : spec_float; vz : spec_float
}.

Record Twist : Type := mkTwist {
  linear : Vector3;
  angular : Vector3
}.

(** ** Global variables *)

(** The globals written by the callbacks and read by the control loop. *)
Record Perception : Type := mkPerception {
  goal_found_flag : bool;
  obstacle_found_flag : bool;
  bumper_flag : bool;
  goal_blob_area : Z;            (* uint16_t *)
  goal_x : spec_float            (* float *)
}.

Definition fzero : spec_float := S754_zero false.

(** [float image_height = 480, image_width = 640;] *)
Definition image_height : spec_float := F32.of_Z 480.
Definition image_width : spec_float := F32.of_Z 640.
(** [float linear_speed = 0.15, angular_speed = 0.7,
    angular_speed_thresh = 0.3;]: double literals converted to [float]. *)
Definition linear_speed : spec_float := float_of_double (F64.lit 15 100).
Definition angular_speed : spec_float := float_of_double (F64.lit 7 10).
Definition angular_speed_thresh : spec_float := float_of_double (F64.lit 3 10).

(** The initial values of the globals. *)
Definition initial_perception : Perception :=
  {| goal_found_flag := false;
     obstacle_found_flag := false;
     bumper_flag := false;
     goal_blob_area := 0;
     goal_x := fzero |}.

(** ** Loops *)

(** [for (int i = lo; i < lo + n; i++) body]: [n] iterations from [i],
    stopping at the first undefined step. *)
Fixpoint for_loop {A : Type} (n : nat) (i : Z)
    (body : Z -> A -> option A) (a : A) : option A :=
  match n with
  | O => Some a
  | S n' =>
      match body i a with
      | None => None
      | Some a' => for_loop n' (i + 1) body a'
      end
  end.

(** ** blobsCallBack *)

(** The locals of [blobsCallBack] together with the global
    [goal_blob_area], which the loop accumulates in place. *)
Record BlobAcc : Type := mkBlobAcc {
  num_goal_blobs : Z;            (* int *)
  goal_sum_x : spec_float;       (* float *)
  goal_sum_y : spec_float;       (* float *)
  acc_area : Z                   (* goal_blob_area, uint16_t *)
}.

(** [colors[1]], pink outdoors: the row selected by [int c = 1]. *)
Definition target_color : Z * Z * Z := (185, 66, 36).

Definition color_matches (b : Blob) : bool :=
  let '(r, g, bl) := target_color in
  (red b =? r) && (green b =? g) && (blue b =? bl).

(** The body of the loop over the blobs, at index [i]. *)
Definition blob_step (bs : list Blob) (i : Z) (acc : BlobAcc) : option BlobAcc :=
  match bs !! Z.to_nat i with
  | None => None
  | Some b =>
      if color_matches b then
        let a := wrap_int (area b) in
        Some {| num_goal_blobs := wrap_int (num_goal_blobs acc + 1);
                goal_sum_x := F32.add (goal_sum_x acc)
                                (F32.of_Z (wrap_uint32 (a * x b)));
                goal_sum_y := F32.add (goal_sum_y acc)
                                (F32.of_Z (wrap_uint32 (a * y b)));
                acc_area := wrap_uint16 (wrap_int (acc_area acc + a)) |}
      else Some acc
  end.

Definition blob_acc0 : BlobAcc :=
  {| num_goal_blobs := 0; goal_sum_x := fzero; goal_sum_y := fzero;
     acc_area := 0 |}.

Definition blobsCallBack (blobsIn : Blobs) (p : Perception) : option Perception :=
  if 0 <? blob_count blobsIn then
    match for_loop (Z.to_nat (blob_count blobsIn)) 0
            (blob_step (blobs blobsIn)) blob_acc0 with
    | None => None
    | Some acc =>
        if 3000 <? acc_area acc then
          Some {| goal_found_flag := true;
                  obstacle_found_flag := obstacle_found_flag p;
                  bumper_flag := bumper_flag p;
                  goal_blob_area := acc_area acc;
                  goal_x := F32.sub
                              (F32.div (goal_sum_x acc) (F32.of_Z (acc_area acc)))
                              (F32.div image_width (F32.of_Z 2)) |}
        else
          Some {| goal_found_flag := false;
                  obstacle_found_flag := obstacle_found_flag p;
                  bumper_flag := bumper_flag p;
                  goal_blob_area := acc_area acc;
                  goal_x := goal_x p |}
    end
  else Some p.

(** ** PointCloud_Callback *)

(** [double min_z = 0.7;] *)
Definition min_z : spec_float := F64.lit 7 10.

(** [pt.z < min_z]: the [float] is promoted to [double]. *)
Definition closer_than_min_z (pt : PointXYZ) : bool :=
  flt (double_of_float (pt_z pt)) min_z.

(** The body of the inner loop, row offset [k] and column [i]; the
    accumulator is the vector [PCL_closest_points]. *)
Definition cloud_step (pts : list PointXYZ) (k i : Z)
    (closest : list spec_float) : option (list spec_float) :=
  match pts !! Z.to_nat (640 * (180 + k) + i) with
  | None => None
  | Some pt =>
      if closer_than_min_z pt then Some (closest ++ [F64.of_Z i])
      else Some closest
  end.

Definition cloud_scan (pts : list PointXYZ) : option (list spec_float) :=
  for_loop 240 0 (fun k => for_loop 640 0 (cloud_step pts k)) [].

Definition PointCloud_Callback (cloud : PointCloud) (p : Perception)
    : option Perception :=
  match cloud_scan (points cloud) with
  | None => None
  | Some PCL_closest_points =>
      if 10 <? Z.of_nat (length PCL_closest_points) then
        Some {| goal_found_flag := goal_found_flag p;
                obstacle_found_flag := true;
                bumper_flag := bumper_flag p;
                goal_blob_area := goal_blob_area p;
                goal_x := goal_x p |}
      else if negb (bumper_flag p) then
        Some {| goal_found_flag := goal_found_flag p;
                obstacle_found_flag := false;
                bumper_flag := bumper_flag p;
                goal_blob_area := goal_blob_area p;
                goal_x := goal_x p |}
      else Some p
  end.

(** ** Bumper_Callback *)

Definition Bumper_Callback (bumper_msg : BumperEvent) (p : Perception)
    : Perception :=
  if bumper_state bumper_msg =? 1 then
    {| goal_found_flag := goal_found_flag p;
       obstacle_found_flag := true;
       bumper_flag := true;
       goal_blob_area := goal_blob_area p;
       goal_x := goal_x p |}
  else
    {| goal_found_flag := goal_found_flag p;
       obstacle_found_flag := obstacle_found_flag p;
       bumper_flag := false;
       goal_blob_area := goal_blob_area p;
       goal_x := goal_x p |}.

(** ** Motion primitives *)

(** [velocityPublisher.publish(T)]: the message is appended to the stream
    of published commands. *)
Definition publish (T : Twist) (out : list Twist) : list Twist := out ++ [T].

Definition rotate (out : list Twist) : list Twist :=
  publish {| linear := mkVector3 fzero fzero fzero;
             angular := mkVector3 fzero fzero (double_of_float angular_speed) |}
          out.

(** [float angular_control = -goal_x*angular_speed*0.7;]: the first product
    is a [float] product, the second a [double] product, and the result is
    converted back to [float]. *)
Definition raw_angular_control (gx : spec_float) : spec_float :=
  float_of_double
    (F64.mul (double_of_float (F32.mul (SFopp gx) angular_speed))
             (F64.lit 7 10)).

(** The clamp of [seek]: [std::abs] on a [float]. *)
Definition limit_angular_control (angular_control : spec_float) : spec_float :=
  if fgt (SFabs angular_control) angular_speed_thresh then
    F32.div (F32.mul angular_control angular_speed_thresh)
            (SFabs angular_control)
  else angular_control.

Definition seek (p : Perception) (out : list Twist) : list Twist :=
  let angular_control := limit_angular_control (raw_angular_control (goal_x p)) in
  publish {| linear := mkVector3 (F64.mul (double_of_float linear_speed)
                                          (F64.lit 7 10))
                                 fzero fzero;
             angular := mkVector3 fzero fzero (double_of_float angular_control) |}
          out.

Definition advance (out : list Twist) : list Twist :=
  publish {| linear := mkVector3 (double_of_float linear_speed) fzero fzero;
             angular := mkVector3 fzero fzero fzero |}
          out.

Definition retreat (out : list Twist) : list Twist :=
  publish {| linear := mkVector3 (double_of_float (SFopp linear_speed))
                                 fzero fzero;
             angular := mkVector3 fzero fzero fzero |}
          out.

(** [for(int i=0;i<n;i++){ f(velocityPublisher); }] *)
Definition times (n : Z) (f : list Twist -> list Twist) (out : list Twist)
    : list Twist :=
  Nat.iter (Z.to_nat n) f out.

(** ** The control loop *)

(** The values of the global [state]. *)
Definition Search : Z := 0.
Definition Approach : Z := 1.
Definition Avoid : Z := 2.
Definition Reached : Z := 3.

(** [image_width*image_height*0.1]: a [float] product promoted to
    [double] and multiplied by the double literal. *)
Definition reached_area : spec_float :=
  F64.mul (double_of_float (F32.mul image_width image_height)) (F64.lit 1 10).

(** [goal_blob_area > (image_width*image_height*0.1)]: the [uint16_t] is
    converted to [double]. *)
Definition obstacle_is_target (p : Perception) : bool :=
  fgt (F64.of_Z (goal_blob_area p)) reached_area.

(** The [switch(state)] of one iteration of the [while] loop: the new value
    of [state] and the stream of published commands. *)
Definition tick (state : Z) (p : Perception) (out : list Twist)
    : Z * list Twist :=
  match state with
  | 0 =>
      if obstacle_found_flag p then (2, out)
      else if goal_found_flag p then (1, out)
      else (state, rotate out)
  | 1 =>
      if obstacle_found_flag p then (2, out)
      else if negb (goal_found_flag p) then (0, out)
      else (state, seek p out)
  | 2 =>
      if obstacle_is_target p then (3, out)
      else if bumper_flag p then
        (0, times 40000 advance (times 40000 rotate (times 40000 retreat out)))
      else if obstacle_found_flag p then (state, rotate out)
      else (0, times 100000 advance out)
  | 3 => (3, out)
  | _ => (state, out)
  end.

(** The commands published by one tick. *)
Definition emitted (state : Z) (p : Perception) : list Twist :=
  snd (tick state p []).

(** Successive ticks, each reading the snapshot that the callbacks left
    before it: the controller state and the published stream after every
    tick. *)
Fixpoint run_ticks (state : Z) (snaps : list Perception) (out : list Twist)
    : list (Z * list Twist) :=
  match snaps with
  | [] => []
  | p :: snaps' =>
      let '(state', out') := tick state p out in
      (state', out') :: run_ticks state' snaps' out'
  end.

(** [ros::spinOnce()]: the queued messages are handed to their callbacks
    one after the other, on the thread of the control loop. *)
Inductive Message : Type :=
  | BlobsMsg (blobsIn : Blobs)
  | CloudMsg (cloud : PointCloud)
  | BumperMsg (bumper_msg : BumperEvent).

Definition deliver (m : Message) (p : Perception) : option Perception :=
  match m with
  | BlobsMsg blobsIn => blobsCallBack blobsIn p
  | CloudMsg cloud => PointCloud_Callback cloud p
  | BumperMsg bumper_msg => Some (Bumper_Callback bumper_msg p)
  end.

Fixpoint spinOnce (queue : list Message) (p : Perception) : option Perception :=
  match queue with
  | [] => Some p
  | m :: queue' =>
      match deliver m p with
      | None => None
      | Some p' => spinOnce queue' p'
      end
  end.

(** The snapshots the callbacks can produce from the initial globals. *)
Inductive reachable : Perception -> Prop :=
  | reachable_initial : reachable initial_perception
  | reachable_deliver : forall m p p',
      reachable p -> deliver m p = Some p' -> reachable p'.

(** ** Quantities of the specification *)

(** The blobs of the frame that the loop visits and that carry the target
    colour. *)
Definition matched_blobs (blobsIn : Blobs) : list Blob :=
  List.filter color_matches (take (Z.to_nat (blob_count blobsIn)) (blobs blobsIn)).

Definition area_sum (bs : list Blob) : Z := foldr (fun b s => area b + s) 0 bs.

(** The sum of the areas of the matched blobs, without wrap-around. *)
Definition matched_area_sum (blobsIn : Blobs) : Z :=
  area_sum (matched_blobs blobsIn).

(** A blob frame whose count does not exceed the blobs present, with
    [uint32] fields. *)
Definition blob_uint32 (b : Blob) : Prop :=
  is_uint32 (red b) /\ is_uint32 (green b) /\ is_uint32 (blue b) /\
  is_uint32 (area b) /\ is_uint32 (x b) /\ is_uint32 (y b).

Definition well_formed_blobs (blobsIn : Blobs) : Prop :=
  blob_count blobsIn <= Z.of_nat (length (blobs blobsIn)) /\
  Forall blob_uint32 (blobs blobsIn).

(** The region of interest of a row-major buffer of 640 columns: rows 180
    to 419. *)
Definition region_of_interest (cloud : PointCloud) : list PointXYZ :=
  take (240 * 640)%nat (drop (180 * 640)%nat (points cloud)).

(** The number of points of the region of interest nearer than 0.7. *)
Definition near_point_count (cloud : PointCloud) : Z :=
  Z.of_nat (length (List.filter closer_than_min_z (region_of_interest cloud))).

(** The typing invariant of the snapshot. *)
Definition well_typed (p : Perception) : Prop := is_uint16 (goal_blob_area p).

(** The depth [z] lies strictly below 7/10, in exact arithmetic: a finite
    [float] is the number [m * 2 ^ e] with its sign. NaN is below
    nothing. *)
Definition depth_below_0_7 (z : spec_float) : bool :=
  match z with
  | S754_nan => false
  | S754_infinity s => s
  | S754_zero _ => true
  | S754_finite true _ _ => true
  | S754_finite false m e =>
      if 0 <=? e then 10 * (Z.pos m * 2 ^ e) <? 7
      else 10 * Z.pos m <? 7 * 2 ^ (- e)
  end.

(** The number of points of the region of interest whose depth lies
    strictly below 7/10. *)
Definition points_below_0_7 (cloud : PointCloud) : Z :=
  Z.of_nat (length (List.filter (fun pt => depth_below_0_7 (pt_z pt))
                      (region_of_interest cloud))).

(** The depths of the buffer are binary32 values. *)
Definition float_depths (cloud : PointCloud) : Prop :=
  Forall (fun pt => F32.valid (pt_z pt) = true) (points cloud).

(** What the loop of [blobsCallBack] does with one matched blob. *)
Definition accumulate_blob (acc : BlobAcc) (b : Blob) : BlobAcc :=
  let a := wrap_int (area b) in
  {| num_goal_blobs := wrap_int (num_goal_blobs acc + 1);
     goal_sum_x := F32.add (goal_sum_x acc) (F32.of_Z (wrap_uint32 (a * x b)));
     goal_sum_y := F32.add (goal_sum_y acc) (F32.of_Z (wrap_uint32 (a * y b)));
     acc_area := wrap_uint16 (wrap_int (acc_area acc + a)) |}.

(** ** Sample frames *)

(** A blob of the target colour. *)
Definition target_blob (a bx by_ : Z) : Blob :=
  {| red := 185; green := 66; blue := 36; area := a; x := bx; y := by_ |}.

(** One target blob in the centre of the image covering 67536 of its
    307200 pixels. *)
Definition large_target_frame : Blobs :=
  {| blob_count := 1; blobs := [target_blob 67536 320 240] |}.

(** One target blob in the centre of the image covering 70000 pixels. *)
Definition larger_target_frame : Blobs :=
  {| blob_count := 1; blobs := [target_blob 70000 320 240] |}.

(** A frame that announces one blob and carries none. *)
Definition truncated_blob_frame : Blobs := {| blob_count := 1; blobs := [] |}.

(** A depth buffer of [n] points, all at depth [z]. *)
Definition uniform_cloud (n : Z) (z : spec_float) : PointCloud :=
  {| points := repeat (mkPoint fzero fzero z) (Z.to_nat n) |}.

(** A depth buffer of 640 columns whose rows 0 to 179 and whose [tail]
    points after row 419 are at depth [z_top], and whose rows 180 to 419
    are at depth [z_roi]. *)
Definition two_band_cloud (z_top z_roi : spec_float) (tail : Z) : PointCloud :=
  {| points := repeat (mkPoint fzero fzero z_top) (Z.to_nat 115200)
               ++ repeat (mkPoint fzero fzero z_roi) (Z.to_nat 153600)
               ++ repeat (mkPoint fzero fzero z_top) (Z.to_nat tail) |}.

(** ** The node *)

(** The state of the running node: the global [state], the globals of the
    callbacks and the commands published so far. *)
Record Node : Type := mkNode {
  node_state : Z;
  node_perception : Perception;
  node_published : list Twist
}.

(** The node when [main] enters its loop: [state = 0]. *)
Definition initial_node : Node :=
  {| node_state := 0; node_perception := initial_perception;
     node_published := [] |}.

(** One iteration of [while(ros::ok())]: the [switch] on the globals as
    they are, then [ros::spinOnce()] on the messages queued meanwhile. *)
Definition loop_iteration (queue : list Message) (n : Node) : option Node :=
  let '(state', out') :=
    tick (node_state n) (node_perception n) (node_published n) in
  match spinOnce queue (node_perception n) with
  | None => None
  | Some p' =>
      Some {| node_state := state'; node_perception := p';
              node_published := out' |}
  end.

(** The loop, one queue of messages per iteration. *)
Fixpoint main_loop (queues : list (list Message)) (n : Node) : option Node :=
  match queues with
  | [] => Some n
  | queue :: queues' =>
      match loop_iteration queue n with
      | None => None
      | Some n' => main_loop queues' n'
      end
  end.

(** The messages the primitives publish. *)
Definition rotate_command : Twist :=
  {| linear := mkVector3 fzero fzero fzero;
     angular := mkVector3 fzero fzero (double_of_float angular_speed) |}.

Definition advance_command : Twist :=
  {| linear := mkVector3 (double_of_float linear_speed) fzero fzero;
     angular := mkVector3 fzero fzero fzero |}.

Definition retreat_command : Twist :=
  {| linear := mkVector3 (double_of_float (SFopp linear_speed)) fzero fzero;
     angular := mkVector3 fzero fzero fzero |}.

(** ** Locations of rounding

    [SpecFloat] rounds a value from its integer part and the location of
    the remainder in the unit interval. For the non-negative rational
    [N / D] these are the following. *)

(** The location of [N / D] between [N / D] rounded down and the next
    integer: exact, or below, at or above the midpoint. *)
Definition loc_of (N D : Z) : location :=
  if N mod D =? 0 then loc_Exact else loc_Inexact (2 * (N mod D) ?= D).

(** A shift record holds the integer part and the location of [N / D]. *)
Definition located (N D : Z) (mrs : shr_record) : Prop :=
  0 < D /\ 0 <= N /\ shr_m mrs = N / D /\ loc_of_shr_record mrs = loc_of N D.


(** * Properties *)

(** ** The published stream *)

Lemma length_publish (T : Twist) (out : list Twist) :
  length (publish T out) = S (length out).
Proof. unfold publish. rewrite length_app. simpl. lia. Qed.

Lemma length_rotate (out : list Twist) : length (rotate out) = S (length out).
Proof. apply length_publish. Qed.

Lemma length_advance (out : list Twist) : length (advance out) = S (length out).
Proof. apply length_publish. Qed.

Lemma length_retreat (out : list Twist) : length (retreat out) = S (length out).
Proof. apply length_publish. Qed.

Lemma length_seek (p : Perception) (out : list Twist) :
  length (seek p out) = S (length out).
Proof. apply length_publish. Qed.

Lemma length_times (n : Z) (f : list Twist -> list Twist) (out : list Twist) :
  (forall o, length (f o) = S (length o)) ->
  length (times n f out) = (length out + Z.to_nat n)%nat.
Proof.
  intros Hf. unfold times.
  induction (Z.to_nat n) as [|k IH]; simpl; [lia|].
  rewrite Hf, IH. lia.
Qed.

(** ** Facts about the floating-point formats *)

(** The number of binary digits of a mantissa. *)
Lemma digits2_pos_bounds (p : positive) :
  2 ^ (Z.pos (digits2_pos p) - 1) <= Z.pos p < 2 ^ Z.pos (digits2_pos p).
Proof.
  induction p as [p IH|p IH|]; simpl digits2_pos.
  - rewrite Pos2Z.inj_succ. replace (Z.succ (Z.pos (digits2_pos p)) - 1) with (Z.succ (Z.pos (digits2_pos p) - 1)) by lia.
    rewrite !Z.pow_succ_r by lia. lia.
  - rewrite Pos2Z.inj_succ. replace (Z.succ (Z.pos (digits2_pos p)) - 1) with (Z.succ (Z.pos (digits2_pos p) - 1)) by lia.
    rewrite !Z.pow_succ_r by lia. lia.
  - simpl. lia.
Qed.

Lemma digits2_pos_unique (p : positive) (d : Z) :
  2 ^ (d - 1) <= Z.pos p < 2 ^ d -> Z.pos (digits2_pos p) = d.
Proof.
  intros [Hlo Hhi]. pose proof (digits2_pos_bounds p) as [Blo Bhi].
  assert (0 < d).
  { destruct (Z_lt_le_dec 0 d); [done|]. 
    assert (2 ^ d <= 2 ^ 0) by (destruct (Z_lt_le_dec d 0); [rewrite Z.pow_neg_r by lia; simpl; lia | apply Z.pow_le_mono_r; lia]).
    simpl in *. lia. }
  destruct (Z.lt_trichotomy (Z.pos (digits2_pos p)) d) as [Hlt|[Heq|Hgt]]; [|done|].
  - assert (2 ^ Z.pos (digits2_pos p) <= 2 ^ (d - 1)) by (apply Z.pow_le_mono_r; lia). lia.
  - assert (2 ^ d <= 2 ^ (Z.pos (digits2_pos p) - 1)) by (apply Z.pow_le_mono_r; lia). lia.
Qed.

Lemma iter_xO_value (p k : positive) :
  Z.pos (Pos.iter xO p k) = Z.pos p * 2 ^ Z.pos k.
Proof.
  revert p. induction k as [|k IH] using Pos.peano_ind; intros p.
  - simpl. lia.
  - rewrite Pos.iter_succ. rewrite Pos2Z.inj_succ, Z.pow_succ_r by lia.
    rewrite Pos2Z.inj_xO, IH. lia.
Qed.

Lemma binary_round_aux_canonical (prec emax : Z) (s : bool) (m : positive) (e : Z) :
  canonical_mantissa prec emax m e = true ->
  e <= emax - prec ->
  binary_round_aux prec emax s (Z.pos m) e loc_Exact = S754_finite s m e.
Proof.
  intros Hc He. unfold canonical_mantissa in Hc. apply Z.eqb_eq in Hc.
  unfold binary_round_aux, shr_fexp. simpl Zdigits2.
  rewrite Hc, Z.sub_diag. simpl.
  rewrite Hc, Z.sub_diag. simpl.
  apply Z.leb_le in He. now rewrite He.
Qed.

(** An integer of at most [prec] digits converts exactly: the mantissa is
    shifted to [prec] digits. *)
Lemma binary_round_small (prec emax : Z) (s : bool) (p : positive) :
  let d := Z.pos (digits2_pos p) in
  1 < prec -> d <= prec -> prec < emax ->
  binary_round prec emax s p 0 =
    S754_finite s (Z.to_pos (Z.pos p * 2 ^ (prec - d))) (d - prec).
Proof.
  intros d Hp Hd He.
  unfold binary_round.
  assert (Hf : fexp prec emax (Z.pos (digits2_pos p) + 0) = d - prec).
  { unfold fexp, emin. fold d. lia. }
  rewrite Hf. unfold shl_align.
  destruct (d - prec - 0) as [|k|k] eqn:Hk; try lia.
  - assert (Hdp : d = prec) by lia.
    replace (Z.to_pos (Z.pos p * 2 ^ (prec - d))) with p
      by (rewrite Hdp, Z.sub_diag; simpl; lia).
    rewrite Hdp, Z.sub_diag.
    apply binary_round_aux_canonical; [|lia].
    unfold canonical_mantissa. fold d. apply Z.eqb_eq. unfold fexp, emin. lia.
  - assert (Hk' : Z.pos k = prec - d) by lia.
    replace (Z.to_pos (Z.pos p * 2 ^ (prec - d))) with (Pos.iter xO p k).
    2:{ rewrite <- Hk', <- iter_xO_value. reflexivity. }
    apply binary_round_aux_canonical; [|lia].
    unfold canonical_mantissa. apply Z.eqb_eq.
    assert (Z.pos (digits2_pos (Pos.iter xO p k)) = prec) as ->.
    { apply digits2_pos_unique. rewrite iter_xO_value, Hk'.
      pose proof (digits2_pos_bounds p) as [Blo Bhi]. fold d in Blo, Bhi.
      assert (E1 : 2 ^ (prec - 1) = 2 ^ (d - 1) * 2 ^ (prec - d))
        by (rewrite <- Z.pow_add_r by lia; f_equal; lia).
      assert (E2 : 2 ^ prec = 2 ^ d * 2 ^ (prec - d))
        by (rewrite <- Z.pow_add_r by lia; f_equal; lia).
      assert (0 < 2 ^ (prec - d)) by (apply Z.pow_pos_nonneg; lia).
      rewrite E1, E2. split; nia. }
    unfold fexp, emin. lia.
Qed.

Lemma reached_area_value :
  reached_area = S754_finite false 8444249301319680 (-38).
Proof. vm_compute. reflexivity. Qed.

(** The test of [case 2] on a [uint16_t] area is the integer comparison
    with 30720. *)
Lemma obstacle_is_target_spec (p : Perception) :
  well_typed p -> obstacle_is_target p = (30720 <? goal_blob_area p).
Proof.
  unfold well_typed, is_uint16, obstacle_is_target, fgt.
  generalize (goal_blob_area p). intros a Ha.
  rewrite reached_area_value.
  destruct a as [|q|q]; [reflexivity| |lia].
  unfold F64.of_Z, binary_normalize.
  pose proof (digits2_pos_bounds q) as [Blo Bhi].
  set (d := Z.pos (digits2_pos q)) in *.
  assert (Hd : d <= 16).
  { destruct (Z_lt_le_dec 16 d); [|done].
    assert (2 ^ 16 <= 2 ^ (d - 1)) by (apply Z.pow_le_mono_r; lia). lia. }
  rewrite binary_round_small by (fold d; unfold F64.prec, F64.emax; lia).
  fold d. unfold F64.prec.
  assert (Hpos : 0 < Z.pos q * 2 ^ (53 - d)) by (apply Z.mul_pos_pos; [lia|apply Z.pow_pos_nonneg; lia]).
  assert (HM : Z.pos (Z.to_pos (Z.pos q * 2 ^ (53 - d))) = Z.pos q * 2 ^ (53 - d))
    by (apply Z2Pos.id; lia).
  revert HM. generalize (Z.to_pos (Z.pos q * 2 ^ (53 - d))). intros M HM.
  unfold SFltb, SFcompare.
  destruct (Z.compare_spec (-38) (d - 53)) as [He|He|He].
  - assert (d = 15) as Hd15 by lia. rewrite Hd15 in HM, Blo, Bhi.
    rewrite Pos.compare_cont_spec. unfold Pos.switch_Eq.
    rewrite Pos2Z.inj_compare, HM.
    change (2 ^ (53 - 15)) with 274877906944.
    change (2 ^ (15 - 1)) with 16384 in Blo. change (2 ^ 15) with 32768 in Bhi.
    destruct (Z.compare_spec 8444249301319680 (Z.pos q * 274877906944)) as [H1|H1|H1];
      symmetry; [apply Z.ltb_ge|apply Z.ltb_lt|apply Z.ltb_ge]; lia.
  - symmetry. apply Z.ltb_lt.
    assert (Hd16 : d = 16) by lia. rewrite Hd16 in Blo.
    change (2 ^ (16 - 1)) with 32768 in Blo. lia.
  - symmetry. apply Z.ltb_ge.
    assert (H14 : 2 ^ d <= 2 ^ 14) by (apply Z.pow_le_mono_r; lia).
    change (2 ^ 14) with 16384 in H14. lia.
Qed.

(** ** The behaviour arbiter *)

(** C3. Reached is absorbing: from [state = 3], whatever snapshots the
    callbacks leave before the following ticks, every tick ends in state 3
    and leaves the published stream as it was, so no tick in Reached
    publishes a command. *)
Theorem reached_is_absorbing (snaps : list Perception) (out : list Twist) :
  Forall (fun r => r = (Reached, out)) (run_ticks Reached snaps out).
Proof.
  induction snaps as [|p snaps IH]; simpl.
  - constructor.
  - constructor; [reflexivity | exact IH].
Qed.

(** C4. In Search, a snapshot with [obstacle_found_flag] set sends the
    controller to Avoid, whatever [goal_found_flag] is, and nothing is
    published on that tick. *)
Theorem search_obstacle_goes_to_avoid (p : Perception) (out : list Twist) :
  obstacle_found_flag p = true ->
  tick Search p out = (Avoid, out).
Proof.
  intros Hobs. unfold tick, Search. now rewrite Hobs.
Qed.

Lemma search_obstacle_goes_to_avoid_witness :
  tick Search
    {| goal_found_flag := true; obstacle_found_flag := true;
       bumper_flag := false; goal_blob_area := 4000; goal_x := fzero |} []
  = (Avoid, []).
Proof.
  apply (search_obstacle_goes_to_avoid
           {| goal_found_flag := true; obstacle_found_flag := true;
              bumper_flag := false; goal_blob_area := 4000; goal_x := fzero |} []).
  reflexivity.
Defined.

(** C5. In Avoid, a snapshot whose stored area exceeds 30720 sends the
    controller to Reached, whatever [bumper_flag] and
    [obstacle_found_flag] are: the test comes first in [case 2]. *)
Theorem avoid_large_goal_goes_to_reached (p : Perception) (out : list Twist) :
  well_typed p ->
  30720 < goal_blob_area p ->
  tick Avoid p out = (Reached, out).
Proof.
  intros Hty Harea. unfold tick, Avoid.
  rewrite (obstacle_is_target_spec p Hty).
  apply Z.ltb_lt in Harea. now rewrite Harea.
Qed.

Lemma avoid_large_goal_goes_to_reached_witness :
  tick Avoid
    {| goal_found_flag := true; obstacle_found_flag := true;
       bumper_flag := true; goal_blob_area := 30721; goal_x := fzero |} []
  = (Reached, []).
Proof.
  apply (avoid_large_goal_goes_to_reached
           {| goal_found_flag := true; obstacle_found_flag := true;
              bumper_flag := true; goal_blob_area := 30721; goal_x := fzero |} []).
  - unfold well_typed, is_uint16. simpl. lia.
  - simpl. lia.
Defined.

(** C9, as the specification states it, fails: a tick in Reached publishes
    nothing. *)
Lemma every_tick_emits_counterexample :
  ~ (forall (state : Z) (p : Perception), (1 <= length (emitted state p))%nat).
Proof.
  intros H. specialize (H Reached initial_perception).
  unfold emitted, tick, Reached in H. simpl in H. lia.
Qed.

(** C9, amended. The number of commands a tick publishes: one when the
    controller rotates in Search, seeks in Approach or rotates in Avoid;
    120000 and 100000 during the two avoidance manoeuvres; none on a tick
    that only changes the state, and none in Reached. *)
Theorem tick_emission_count (state : Z) (p : Perception) :
  well_typed p ->
  Z.of_nat (length (emitted state p)) =
    if state =? Search then
      if obstacle_found_flag p || goal_found_flag p then 0 else 1
    else if state =? Approach then
      if obstacle_found_flag p || negb (goal_found_flag p) then 0 else 1
    else if state =? Avoid then
      if 30720 <? goal_blob_area p then 0
      else if bumper_flag p then 120000
      else if obstacle_found_flag p then 1
      else 100000
    else 0.
Proof.
  intros Hty. unfold emitted, Search, Approach, Avoid.
  destruct (Z.eqb_spec state 0) as [->|H0].
  { simpl. destruct (obstacle_found_flag p), (goal_found_flag p); simpl;
      reflexivity. }
  destruct (Z.eqb_spec state 1) as [->|H1].
  { simpl. destruct (obstacle_found_flag p), (goal_found_flag p); simpl;
      reflexivity. }
  destruct (Z.eqb_spec state 2) as [->|H2].
  { simpl. rewrite (obstacle_is_target_spec p Hty).
    destruct (30720 <? goal_blob_area p); [reflexivity|].
    destruct (bumper_flag p).
    - cbn [snd]. rewrite !length_times
        by (intros; first [apply length_advance|apply length_rotate|apply length_retreat]).
      cbn [length]. lia.
    - destruct (obstacle_found_flag p); cbn [snd].
      + reflexivity.
      + rewrite length_times by apply length_advance. cbn [length]. lia. }
  unfold tick. destruct state as [|[[|[]|]|[|[]|]|]|]; try reflexivity; lia.
Qed.

Lemma tick_emission_count_witness :
  Z.of_nat (length (emitted Avoid
    {| goal_found_flag := false; obstacle_found_flag := true;
       bumper_flag := true; goal_blob_area := 0; goal_x := fzero |})) = 120000.
Proof.
  apply (tick_emission_count Avoid
    {| goal_found_flag := false; obstacle_found_flag := true;
       bumper_flag := true; goal_blob_area := 0; goal_x := fzero |}).
  unfold well_typed, is_uint16. simpl. lia.
Defined.

(** ** The blob centroid estimator *)

Lemma wrap_int_mod16 (z : Z) : wrap_int z mod 2 ^ 16 = z mod 2 ^ 16.
Proof.
  unfold wrap_int.
  rewrite (Z.mod_eq (z + 2 ^ 31) (2 ^ 32)) by lia.
  replace (z + 2 ^ 31 - 2 ^ 32 * ((z + 2 ^ 31) / 2 ^ 32) - 2 ^ 31)
    with (z + (- (2 ^ 16 * ((z + 2 ^ 31) / 2 ^ 32))) * 2 ^ 16)
    by (change (2 ^ 32) with (2 ^ 16 * 2 ^ 16); ring).
  apply Z_mod_plus_full.
Qed.

(** One accumulation [goal_blob_area += area] adds modulo [2 ^ 16]. *)
Lemma accumulate_area (acc a : Z) :
  wrap_uint16 (wrap_int (acc + wrap_int a)) = (acc + a) mod 2 ^ 16.
Proof.
  unfold wrap_uint16. rewrite wrap_int_mod16.
  rewrite <- Z.add_mod_idemp_r, wrap_int_mod16, Z.add_mod_idemp_r by lia.
  reflexivity.
Qed.

(** The loop over the blobs, from index [i] on: it is defined when the
    indices exist, and the area it accumulates is the sum of the matched
    areas modulo [2 ^ 16]. *)
Lemma blob_loop_area (bs : list Blob) (n : nat) (i : nat) (acc : BlobAcc) :
  (i + n <= length bs)%nat ->
  is_uint16 (acc_area acc) ->
  exists acc',
    for_loop n (Z.of_nat i) (blob_step bs) acc = Some acc' /\
    acc_area acc' =
      (acc_area acc + area_sum (List.filter color_matches (take n (drop i bs))))
        mod 2 ^ 16.
Proof.
  revert i acc. induction n as [|n IH]; intros i acc Hlen Hacc.
  - exists acc. split; [reflexivity|]. simpl. unfold is_uint16 in Hacc.
    rewrite Z.add_0_r, Z.mod_small by lia. reflexivity.
  - destruct (lookup_lt_is_Some_2 bs i) as [b Hb]; [lia|].
    simpl for_loop. unfold blob_step at 1. rewrite Nat2Z.id, Hb.
    rewrite (drop_S _ _ _ Hb). simpl take. simpl List.filter.
    replace (Z.of_nat i + 1) with (Z.of_nat (S i)) by lia.
    destruct (color_matches b) eqn:Hm.
    + edestruct (IH (S i)) as [acc' [Hrun Harea]]; [lia| |].
      2:{ exists acc'. split; [exact Hrun|]. rewrite Harea. simpl acc_area.
          rewrite accumulate_area. simpl area_sum.
          rewrite Z.add_mod_idemp_l by lia. f_equal. lia. }
      simpl. rewrite accumulate_area. unfold is_uint16.
      apply Z.mod_pos_bound. lia.
    + apply (IH (S i)); [lia|exact Hacc].
Qed.

(** Past the end of [blobs] the loop reads out of bounds. *)
Lemma blob_loop_out_of_bounds (bs : list Blob) (n : nat) (i : nat) (acc : BlobAcc) :
  (length bs < i + n)%nat -> (0 < n)%nat ->
  for_loop n (Z.of_nat i) (blob_step bs) acc = None.
Proof.
  revert i acc. induction n as [|n IH]; intros i acc Hlen Hn; [lia|].
  simpl for_loop. unfold blob_step at 1. rewrite Nat2Z.id.
  destruct (bs !! i) as [b|] eqn:Hb; [|reflexivity].
  apply lookup_lt_Some in Hb.
  replace (Z.of_nat i + 1) with (Z.of_nat (S i)) by lia.
  destruct (color_matches b); apply IH; lia.
Qed.

Lemma blob_loop_total (blobsIn : Blobs) :
  blob_count blobsIn <= Z.of_nat (length (blobs blobsIn)) ->
  exists acc,
    for_loop (Z.to_nat (blob_count blobsIn)) 0 (blob_step (blobs blobsIn)) blob_acc0
      = Some acc /\
    acc_area acc = matched_area_sum blobsIn mod 2 ^ 16.
Proof.
  intros Hlen.
  destruct (blob_loop_area (blobs blobsIn) (Z.to_nat (blob_count blobsIn)) 0 blob_acc0)
    as [acc [Hrun Harea]].
  - lia.
  - unfold is_uint16. simpl. lia.
  - exists acc. split; [exact Hrun|]. rewrite Harea. simpl. reflexivity.
Qed.

(** C7. A frame with [blob_count = 0] leaves the whole snapshot, and so
    [goal_found_flag], [goal_x] and [goal_blob_area], as it was. *)
Theorem blobsCallBack_empty_frame (blobsIn : Blobs) (p : Perception) :
  blob_count blobsIn = 0 ->
  blobsCallBack blobsIn p = Some p.
Proof.
  intros H0. unfold blobsCallBack. now rewrite H0.
Qed.

Lemma blobsCallBack_empty_frame_witness :
  blobsCallBack {| blob_count := 0; blobs := [] |}
    {| goal_found_flag := true; obstacle_found_flag := false;
       bumper_flag := false; goal_blob_area := 5000;
       goal_x := F32.of_Z 12 |}
  = Some {| goal_found_flag := true; obstacle_found_flag := false;
            bumper_flag := false; goal_blob_area := 5000;
            goal_x := F32.of_Z 12 |}.
Proof.
  apply (blobsCallBack_empty_frame {| blob_count := 0; blobs := [] |}).
  reflexivity.
Defined.

(** What a non-empty, in-bounds frame does to the snapshot. *)
Lemma blobsCallBack_nonempty (blobsIn : Blobs) (p : Perception) :
  0 < blob_count blobsIn ->
  blob_count blobsIn <= Z.of_nat (length (blobs blobsIn)) ->
  exists p',
    blobsCallBack blobsIn p = Some p' /\
    goal_blob_area p' = matched_area_sum blobsIn mod 2 ^ 16 /\
    goal_found_flag p' = (3000 <? matched_area_sum blobsIn mod 2 ^ 16) /\
    obstacle_found_flag p' = obstacle_found_flag p /\
    bumper_flag p' = bumper_flag p.
Proof.
  intros Hpos Hlen. unfold blobsCallBack.
  apply Z.ltb_lt in Hpos. rewrite Hpos.
  destruct (blob_loop_total blobsIn Hlen) as [acc [Hrun Harea]].
  rewrite Hrun, <- Harea.
  destruct (3000 <? acc_area acc); eexists; split; try reflexivity; simpl; auto.
Qed.

(** ** The obstacle field sampler *)

Lemma for_loop_S {A : Type} (n : nat) (i : Z) (body : Z -> A -> option A) (a : A) :
  for_loop (S n) i body a =
    match body i a with
    | None => None
    | Some a' => for_loop n (i + 1) body a'
    end.
Proof. reflexivity. Qed.

(** One row of the scan, from column [i] on. *)
Lemma cloud_row_count (pts : list PointXYZ) (k : Z) (b n i : nat)
    (closest : list spec_float) :
  Z.of_nat b = 640 * (180 + k) ->
  (b + i + n <= length pts)%nat ->
  exists closest',
    for_loop n (Z.of_nat i) (cloud_step pts k) closest = Some closest' /\
    length closest' =
      (length closest +
       length (List.filter closer_than_min_z (take n (drop (b + i) pts))))%nat.
Proof.
  intros Hb. revert i closest. induction n as [|n IH]; intros i closest Hlen.
  - exists closest. split; [reflexivity|]. simpl. lia.
  - destruct (lookup_lt_is_Some_2 pts (b + i)) as [pt Hpt]; [lia|].
    rewrite for_loop_S. unfold cloud_step at 1.
    replace (Z.to_nat (640 * (180 + k) + Z.of_nat i)) with (b + i)%nat by lia.
    rewrite Hpt, (drop_S _ _ _ Hpt). cbn [take List.filter].
    replace (Z.of_nat i + 1) with (Z.of_nat (S i)) by lia.
    replace (S (b + i)) with (b + S i)%nat by lia.
    destruct (closer_than_min_z pt).
    + destruct (IH (S i) (closest ++ [F64.of_Z (Z.of_nat i)])) as [c' [Hrun Hc']];
        [lia|].
      exists c'. split; [exact Hrun|]. rewrite Hc', length_app. simpl. lia.
    + apply IH. lia.
Qed.

Lemma cloud_row_out_of_bounds (pts : list PointXYZ) (k : Z) (b n i : nat)
    (closest : list spec_float) :
  Z.of_nat b = 640 * (180 + k) ->
  (length pts < b + i + n)%nat -> (0 < n)%nat ->
  for_loop n (Z.of_nat i) (cloud_step pts k) closest = None.
Proof.
  intros Hb. revert i closest. induction n as [|n IH]; intros i closest Hlen Hn; [lia|].
  rewrite for_loop_S. unfold cloud_step at 1.
  replace (Z.to_nat (640 * (180 + k) + Z.of_nat i)) with (b + i)%nat by lia.
  destruct (pts !! (b + i)%nat) as [pt|] eqn:Hpt; [|reflexivity].
  apply lookup_lt_Some in Hpt.
  replace (Z.of_nat i + 1) with (Z.of_nat (S i)) by lia.
  destruct (closer_than_min_z pt); apply IH; lia.
Qed.

(** The rows of the scan, from row offset [k] on. *)
Lemma cloud_rows_count (pts : list PointXYZ) (n k : nat) (closest : list spec_float) :
  (640 * (180 + k + n) <= length pts)%nat ->
  exists closest',
    for_loop n (Z.of_nat k) (fun k => for_loop 640 0 (cloud_step pts k)) closest
      = Some closest' /\
    length closest' =
      (length closest +
       length (List.filter closer_than_min_z
                 (take (640 * n) (drop (640 * (180 + k)) pts))))%nat.
Proof.
  revert k closest. induction n as [|n IH]; intros k closest Hlen.
  - exists closest. split; [reflexivity|].
    replace (640 * 0)%nat with 0%nat by lia. simpl. lia.
  - rewrite for_loop_S.
    destruct (cloud_row_count pts (Z.of_nat k) (640 * (180 + k)) 640 0 closest)
      as [c1 [Hrow Hc1]]; [lia|lia|].
    change (Z.of_nat 0) with 0 in Hrow. rewrite Hrow.
    replace (Z.of_nat k + 1) with (Z.of_nat (S k)) by lia.
    destruct (IH (S k) c1) as [c2 [Hrest Hc2]]; [lia|].
    exists c2. split; [exact Hrest|].
    rewrite Hc2, Hc1.
    replace (640 * S n)%nat with (640 + 640 * n)%nat by lia.
    rewrite <- (take_take_drop _ 640 (640 * n)), List.filter_app, length_app.
    rewrite drop_drop.
    replace (640 * (180 + k) + 0)%nat with (640 * (180 + k))%nat by lia.
    replace (640 * (180 + k) + 640)%nat with (640 * (180 + S k))%nat by lia.
    lia.
Qed.

Lemma cloud_rows_out_of_bounds (pts : list PointXYZ) (n k : nat)
    (closest : list spec_float) :
  (length pts < 640 * (180 + k + n))%nat -> (0 < n)%nat ->
  for_loop n (Z.of_nat k) (fun k => for_loop 640 0 (cloud_step pts k)) closest
    = None.
Proof.
  revert k closest. induction n as [|n IH]; intros k closest Hlen Hn; [lia|].
  rewrite for_loop_S.
  destruct (le_lt_dec (640 * (180 + k + 1)) (length pts)) as [Hrow|Hrow].
  - destruct (cloud_row_count pts (Z.of_nat k) (640 * (180 + k)) 640 0 closest)
      as [c1 [Hrun _]]; [lia|lia|].
    change (Z.of_nat 0) with 0 in Hrun. rewrite Hrun.
    replace (Z.of_nat k + 1) with (Z.of_nat (S k)) by lia.
    apply IH; lia.
  - change 0 with (Z.of_nat 0) at 1.
    rewrite (cloud_row_out_of_bounds pts (Z.of_nat k) (640 * (180 + k)) 640 0);
      [reflexivity|lia|lia|lia].
Qed.

(** The scan is defined exactly on the buffers that reach the last index
    it reads, 640 * 419 + 639, and then collects as many entries as the
    region of interest has near points. *)
Lemma cloud_scan_count (cloud : PointCloud) :
  268800 <= Z.of_nat (length (points cloud)) ->
  exists closest,
    cloud_scan (points cloud) = Some closest /\
    Z.of_nat (length closest) = near_point_count cloud.
Proof.
  intros Hlen. unfold cloud_scan, near_point_count, region_of_interest.
  destruct (cloud_rows_count (points cloud) 240 0 []) as [c [Hrun Hc]]; [lia|].
  change (Z.of_nat 0) with 0 in Hrun.
  exists c. split; [exact Hrun|]. rewrite Hc. simpl length at 1.
  replace (640 * 240)%nat with (240 * 640)%nat by lia.
  replace (640 * (180 + 0))%nat with (180 * 640)%nat by lia.
  reflexivity.
Qed.

Lemma cloud_scan_out_of_bounds (pts : list PointXYZ) :
  Z.of_nat (length pts) < 268800 -> cloud_scan pts = None.
Proof.
  intros Hlen. unfold cloud_scan.
  change 0 with (Z.of_nat 0) at 1.
  apply cloud_rows_out_of_bounds; lia.
Qed.

(** The callbacks keep [obstacle_found_flag] set while [bumper_flag] is. *)
Lemma bumper_implies_obstacle (p : Perception) :
  reachable p -> bumper_flag p = true -> obstacle_found_flag p = true.
Proof.
  induction 1 as [|m p p' Hreach IH Hdel]; intros Hb; [discriminate|].
  destruct m as [blobsIn|cloud|bumper_msg]; simpl in Hdel.
  - unfold blobsCallBack in Hdel.
    destruct (0 <? blob_count blobsIn); [|now inversion Hdel; subst; auto].
    destruct (for_loop _ _ _ _) as [acc|]; [|discriminate].
    destruct (3000 <? acc_area acc); inversion Hdel; subst; simpl in *; auto.
  - unfold PointCloud_Callback in Hdel.
    destruct (cloud_scan _) as [c|]; [|discriminate].
    destruct (10 <? _); [inversion Hdel; reflexivity|].
    destruct (bumper_flag p) eqn:Hbp; simpl in Hdel; inversion Hdel; subst;
      simpl in *; auto; congruence.
  - inversion Hdel; subst. unfold Bumper_Callback in *.
    destruct (bumper_state bumper_msg =? 1); simpl in *; auto; discriminate.
Qed.

(** What a depth frame that covers the region of interest does to the
    snapshot, whatever the snapshot was. *)
Lemma PointCloud_Callback_in_bounds (cloud : PointCloud) (p : Perception) :
  268800 <= Z.of_nat (length (points cloud)) ->
  exists p',
    PointCloud_Callback cloud p = Some p' /\
    obstacle_found_flag p' =
      (10 <? near_point_count cloud) || (bumper_flag p && obstacle_found_flag p) /\
    bumper_flag p' = bumper_flag p /\
    goal_found_flag p' = goal_found_flag p /\
    goal_blob_area p' = goal_blob_area p /\
    goal_x p' = goal_x p.
Proof.
  intros Hlen. unfold PointCloud_Callback.
  destruct (cloud_scan_count cloud Hlen) as [c [Hscan Hc]].
  rewrite Hscan, Hc.
  destruct (10 <? near_point_count cloud); [eexists; split; [reflexivity|]; simpl; tauto|].
  destruct (bumper_flag p) eqn:Hb; simpl.
  - exists p. rewrite Hb. simpl. tauto.
  - eexists. split; [reflexivity|]. simpl. tauto.
Qed.

(** C8, as the specification states it, fails: a blob frame whose count
    exceeds the blobs present is not dropped, it is read past its end. *)
Lemma malformed_frame_counterexample :
  ~ ((forall (blobsIn : Blobs) (p : Perception),
        Z.of_nat (length (blobs blobsIn)) < blob_count blobsIn ->
        blobsCallBack blobsIn p = Some p) /\
     (forall (cloud : PointCloud) (p : Perception),
        Z.of_nat (length (points cloud)) <> 640 * 480 ->
        PointCloud_Callback cloud p = Some p)).
Proof.
  intros [Hblobs _].
  specialize (Hblobs truncated_blob_frame initial_perception).
  assert (H : Z.of_nat (length (blobs truncated_blob_frame))
              < blob_count truncated_blob_frame) by (simpl; lia).
  specialize (Hblobs H). discriminate Hblobs.
Qed.

(** C8, amended. No frame is validated or dropped. A depth buffer that
    reaches index 268799 is evaluated whatever its size; a shorter one is
    read past its end. A blob frame whose count is at most the number of
    blobs present is evaluated; one whose count exceeds it is read past its
    end. *)
Theorem frames_are_not_validated :
  (forall (cloud : PointCloud) (p : Perception),
     268800 <= Z.of_nat (length (points cloud)) ->
     exists p',
       PointCloud_Callback cloud p = Some p' /\
       obstacle_found_flag p' =
         (10 <? near_point_count cloud)
         || (bumper_flag p && obstacle_found_flag p)) /\
  (forall (cloud : PointCloud) (p : Perception),
     Z.of_nat (length (points cloud)) < 268800 ->
     PointCloud_Callback cloud p = None) /\
  (forall (blobsIn : Blobs) (p : Perception),
     blob_count blobsIn <= Z.of_nat (length (blobs blobsIn)) ->
     exists p', blobsCallBack blobsIn p = Some p') /\
  (forall (blobsIn : Blobs) (p : Perception),
     Z.of_nat (length (blobs blobsIn)) < blob_count blobsIn ->
     blobsCallBack blobsIn p = None).
Proof.
  repeat split.
  - intros cloud p Hlen.
    destruct (PointCloud_Callback_in_bounds cloud p Hlen) as [p' [Hrun [Hobs _]]].
    exists p'. auto.
  - intros cloud p Hlen. unfold PointCloud_Callback.
    now rewrite (cloud_scan_out_of_bounds (points cloud) Hlen).
  - intros blobsIn p Hlen.
    destruct (Z.ltb_spec 0 (blob_count blobsIn)) as [Hpos|Hpos].
    + destruct (blobsCallBack_nonempty blobsIn p Hpos Hlen) as [p' [Hrun _]].
      exists p'. exact Hrun.
    + exists p. unfold blobsCallBack.
      destruct (Z.ltb_spec 0 (blob_count blobsIn)); [lia|reflexivity].
  - intros blobsIn p Hlen. unfold blobsCallBack.
    destruct (Z.ltb_spec 0 (blob_count blobsIn)) as [Hpos|Hpos]; [|lia].
    change 0 with (Z.of_nat 0) at 1.
    rewrite blob_loop_out_of_bounds; [reflexivity|lia|lia].
Qed.

Lemma frames_are_not_validated_witness :
  blobsCallBack truncated_blob_frame initial_perception = None /\
  PointCloud_Callback (uniform_cloud 307199 (F32.of_Z 2)) initial_perception
    <> None.
Proof.
  destruct frames_are_not_validated as [Hcloud [_ [_ Hblobs]]].
  split.
  - apply Hblobs. simpl. lia.
  - destruct (Hcloud (uniform_cloud 307199 (F32.of_Z 2)) initial_perception)
      as [p' [Hrun _]].
    + unfold uniform_cloud, points. rewrite repeat_length. lia.
    + rewrite Hrun. discriminate.
Defined.

(** C10. The area is accumulated in a [uint16_t]: after a non-empty frame
    the stored area is the sum of the matched areas modulo [2 ^ 16]; and a
    target of 67536 pixels is stored as 2000, so that the goal is not
    found and a tick in Avoid does not reach Reached. *)
Theorem goal_blob_area_wraps_around :
  (forall (blobsIn : Blobs) (p : Perception),
     0 < blob_count blobsIn ->
     blob_count blobsIn <= Z.of_nat (length (blobs blobsIn)) ->
     exists p',
       blobsCallBack blobsIn p = Some p' /\
       goal_blob_area p' = matched_area_sum blobsIn mod 2 ^ 16) /\
  (exists (blobsIn : Blobs) (p' : Perception),
     65535 < matched_area_sum blobsIn /\
     blobsCallBack blobsIn initial_perception = Some p' /\
     goal_blob_area p' <= 3000 /\
     goal_found_flag p' = false /\
     forall out, fst (tick Avoid p' out) <> Reached).
Proof.
  split.
  - intros blobsIn p Hpos Hlen.
    destruct (blobsCallBack_nonempty blobsIn p Hpos Hlen) as [p' [Hrun [Ha _]]].
    exists p'. auto.
  - exists large_target_frame.
    exists {| goal_found_flag := false; obstacle_found_flag := false;
              bumper_flag := false; goal_blob_area := 2000; goal_x := fzero |}.
    split; [vm_compute; reflexivity|].
    split; [vm_compute; reflexivity|].
    split; [simpl; lia|].
    split; [reflexivity|].
    intros out. unfold tick, Avoid.
    rewrite obstacle_is_target_spec by (unfold well_typed, is_uint16; simpl; lia).
    simpl. unfold Reached. lia.
Qed.

Lemma goal_blob_area_wraps_around_witness :
  exists p',
    blobsCallBack larger_target_frame initial_perception = Some p' /\
    goal_blob_area p' = matched_area_sum larger_target_frame mod 2 ^ 16.
Proof.
  apply (proj1 goal_blob_area_wraps_around larger_target_frame initial_perception).
  - simpl. lia.
  - simpl. lia.
Defined.

(** C1 fails on the code. A target of 67536 pixels, far above 3000, is
    not found; and a centred target of 70000 pixels is found with an offset
    of about 4698 pixels instead of 0, the weighted sum being divided by the
    wrapped area 4464. *)
Theorem goal_found_misses_large_target :
  (0 <? blob_count large_target_frame) = true /\
  matched_area_sum large_target_frame = 67536 /\
  blobsCallBack large_target_frame initial_perception =
    Some {| goal_found_flag := false; obstacle_found_flag := false;
            bumper_flag := false; goal_blob_area := 2000; goal_x := fzero |} /\
  matched_area_sum larger_target_frame = 70000 /\
  blobsCallBack larger_target_frame initial_perception =
    Some {| goal_found_flag := true; obstacle_found_flag := false;
            bumper_flag := false; goal_blob_area := 4464;
            goal_x := S754_finite false 9621343 (-11) |}.
Proof. repeat split; vm_compute; reflexivity. Qed.

(** ** Rounding to nearest *)

Lemma Zdigits2_bounds (z : Z) :
  0 < z -> 2 ^ (Zdigits2 z - 1) <= z < 2 ^ Zdigits2 z.
Proof.
  destruct z as [|p|p]; try lia. intros _. apply digits2_pos_bounds.
Qed.

Lemma Zdigits2_unique (z d : Z) :
  0 < z -> 2 ^ (d - 1) <= z < 2 ^ d -> Zdigits2 z = d.
Proof.
  destruct z as [|p|p]; try lia. intros _. apply digits2_pos_unique.
Qed.

Lemma Zdigits2_pos (z : Z) : 0 < z -> 0 < Zdigits2 z.
Proof. destruct z; simpl; lia. Qed.

Lemma Zdigits2_le (z n : Z) : 0 <= n -> 0 <= z < 2 ^ n -> Zdigits2 z <= n.
Proof.
  intros Hn [H0 Hz]. destruct (Z.eq_dec z 0) as [->|Hne]; [simpl; lia|].
  pose proof (Zdigits2_bounds z ltac:(lia)) as [Blo _].
  destruct (Z_le_gt_dec (Zdigits2 z) n) as [|Hgt]; [done|].
  assert (2 ^ n <= 2 ^ (Zdigits2 z - 1)) by (apply Z.pow_le_mono_r; lia). lia.
Qed.

Lemma Zdigits2_ge (z n : Z) : 2 ^ (n - 1) <= z -> 0 < z -> n <= Zdigits2 z.
Proof.
  intros Hz H0. pose proof (Zdigits2_bounds z H0) as [_ Bhi].
  pose proof (Zdigits2_pos z H0).
  destruct (Z_le_gt_dec n (Zdigits2 z)) as [|Hgt]; [done|].
  assert (2 ^ Zdigits2 z <= 2 ^ (n - 1)) by (apply Z.pow_le_mono_r; lia). lia.
Qed.

Lemma div_mod_double (N D : Z) :
  0 < D ->
  N / (2 * D) = N / D / 2 /\ N mod (2 * D) = D * ((N / D) mod 2) + N mod D.
Proof.
  intros HD.
  assert (E : N / (2 * D) = N / D / 2)
    by (rewrite (Z.mul_comm 2 D), Z.div_div by lia; reflexivity).
  split; [exact E|].
  rewrite (Z.mod_eq N (2 * D)), E by lia.
  rewrite (Z.mod_eq (N / D) 2), (Z.mod_eq N D) by lia. ring.
Qed.

Lemma shr_1_spec (m : Z) (r s : bool) :
  0 <= m ->
  shr_1 (Build_shr_record m r s) = Build_shr_record (m / 2) (Z.odd m) (r || s).
Proof.
  intros Hm. destruct m as [|[p|p|]|p]; try lia; simpl shr_1; f_equal.
  - change (Z.pos p~1) with (1 + 2 * Z.pos p).
    rewrite Z.mul_comm, Z.div_add by lia. reflexivity.
  - change (Z.pos p~0) with (2 * Z.pos p).
    rewrite Z.mul_comm, Z.div_mul by lia. reflexivity.
Qed.

Lemma located_shr_1 (N D : Z) (mrs : shr_record) :
  located N D mrs -> located N (2 * D) (shr_1 mrs).
Proof.
  destruct mrs as [m r s]. unfold located.
  intros (HD & HN & Hm & Hl). simpl in Hm.
  destruct (div_mod_double N D HD) as [Ediv Emod].
  pose proof (Z.mod_pos_bound N D HD) as Hrho.
  assert (Hq : 0 <= N / D) by (apply Z.div_pos; lia).
  assert (Hrs : r || s = false <-> N mod D = 0).
  { unfold loc_of in Hl. destruct r, s; simpl in Hl |- *;
      destruct (Z.eqb_spec (N mod D) 0); try discriminate Hl;
      split; intros; first [done|lia]. }
  rewrite shr_1_spec by lia. simpl shr_m.
  split; [lia|]. split; [lia|]. split; [rewrite Ediv, Hm; reflexivity|].
  simpl loc_of_shr_record. unfold loc_of. rewrite Emod, <- Hm, Zmod_odd.
  destruct (Z.odd m), (r || s); simpl;
    destruct (Z.eqb_spec (N mod D) 0) as [E0|E0];
    try (exfalso; destruct Hrs as [H1 H2]; first [now apply E0, H1 | now discriminate H2]);
    match goal with
    | |- context [(?a =? 0)] => destruct (Z.eqb_spec a 0) as [E1|E1]
    end; try lia;
    try reflexivity; f_equal; symmetry;
    first [apply Z.compare_lt_iff | apply Z.compare_eq_iff | apply Z.compare_gt_iff];
    lia.
Qed.

(** [iter_pos] runs its function as many times as its argument says. *)
Lemma iter_pos_invariant {A : Type} (f : A -> A) (P : Z -> A -> Prop) :
  (forall n a, 0 <= n -> P n a -> P (n + 1) (f a)) ->
  forall (p : positive) (n : Z) (a : A),
    0 <= n -> P n a -> P (n + Z.pos p) (SpecFloat.iter_pos f p a).
Proof.
  intros Hstep. induction p as [p IH|p IH|]; intros n a Hn Ha; simpl.
  - replace (n + Z.pos p~1) with (n + 1 + Z.pos p + Z.pos p) by lia.
    apply IH; [lia|]. apply IH; [lia|]. now apply Hstep.
  - replace (n + Z.pos p~0) with (n + Z.pos p + Z.pos p) by lia.
    apply IH; [lia|]. now apply IH.
  - now apply Hstep.
Qed.

Lemma located_iter_shr_1 (N D : Z) (mrs : shr_record) (p : positive) :
  located N D mrs ->
  located N (D * 2 ^ Z.pos p) (SpecFloat.iter_pos shr_1 p mrs).
Proof.
  intros Hloc.
  change (Z.pos p) with (0 + Z.pos p).
  apply (iter_pos_invariant shr_1 (fun n a => located N (D * 2 ^ n) a)).
  - intros n a Hn Ha. rewrite Z.pow_add_r by lia.
    replace (D * (2 ^ n * 2 ^ 1)) with (2 * (D * 2 ^ n)) by ring.
    now apply located_shr_1.
  - lia.
  - simpl. now rewrite Z.mul_1_r.
Qed.

Lemma located_shr (N D : Z) (mrs : shr_record) (e k : Z) :
  located N D mrs ->
  located N (D * 2 ^ Z.max 0 k) (fst (shr mrs e k)) /\
  snd (shr mrs e k) = e + Z.max 0 k.
Proof.
  intros Hloc. destruct k as [|p|p]; simpl shr; simpl fst; simpl snd.
  - rewrite Z.max_l by lia. simpl. rewrite Z.mul_1_r, Z.add_0_r. auto.
  - rewrite Z.max_r by lia. split; [|reflexivity].
    now apply located_iter_shr_1.
  - rewrite Z.max_l by lia. simpl. rewrite Z.mul_1_r, Z.add_0_r. auto.
Qed.

Lemma located_of_loc (N D m : Z) (l : location) :
  0 < D -> 0 <= N -> m = N / D -> l = loc_of N D ->
  located N D (shr_record_of_loc m l).
Proof.
  intros HD HN -> ->. unfold located. repeat split; try lia.
  - destruct (loc_of N D) as [|[]]; reflexivity.
  - destruct (loc_of N D) as [|[]]; reflexivity.
Qed.

(** Rounding to nearest picks the floor or the next integer, at most half
    a unit away. *)
Lemma round_nearest_even_located (N D : Z) (mrs : shr_record) :
  located N D mrs ->
  let m' := round_nearest_even (shr_m mrs) (loc_of_shr_record mrs) in
  (m' = N / D \/ m' = N / D + 1) /\ - D <= 2 * (m' * D - N) <= D.
Proof.
  intros (HD & HN & Hm & Hl). rewrite Hl, Hm. unfold loc_of.
  pose proof (Z.mod_pos_bound N D HD) as Hrho.
  pose proof (Z.div_mod N D ltac:(lia)) as Hdm.
  destruct (Z.eqb_spec (N mod D) 0) as [E0|E0]; simpl.
  - split; [auto|]. nia.
  - destruct (Z.compare_spec (2 * (N mod D)) D) as [Hc|Hc|Hc]; simpl.
    + destruct (Z.even (N / D)); split; auto; nia.
    + split; [auto|]. nia.
    + split; [auto|]. nia.
Qed.

Section BinaryRound.
Variables prec emax : Z.
Hypothesis prec_pos : 0 < prec.

Lemma fexp_ge_emin (e : Z) : emin prec emax <= fexp prec emax e.
Proof. unfold fexp. lia. Qed.

Lemma fexp_ge_sub (e : Z) : e - prec <= fexp prec emax e.
Proof. unfold fexp. lia. Qed.

(** The core of every operation: a non-negative value [N / D * 2 ^ e],
    given by its integer part [m] and the location of the rest, is
    rounded to a float of the format. The result is canonical, its
    exponent is the one the format assigns to the input or the next, and
    it is at most half a unit of that exponent away from the value; a
    value of at most half a unit may round to zero. *)
Lemma binary_round_aux_spec (s : bool) (N D m e : Z) (l : location) :
  0 < D -> 0 <= N -> m = N / D -> 0 < m -> l = loc_of N D ->
  e <= fexp prec emax (Zdigits2 m + e) ->
  let e1 := fexp prec emax (Zdigits2 m + e) in
  binary_round_aux prec emax s m e l = S754_zero s /\ 2 * N <= D * 2 ^ (e1 - e) \/
  exists (m3 : positive) (e3 : Z),
    binary_round_aux prec emax s m e l =
      (if e3 <=? emax - prec then S754_finite s m3 e3 else S754_infinity s) /\
    canonical_mantissa prec emax m3 e3 = true /\
    (e3 = e1 \/ e3 = e1 + 1) /\
    - (D * 2 ^ (e1 - e)) <= 2 * (Z.pos m3 * 2 ^ (e3 - e) * D - N)
      <= D * 2 ^ (e1 - e).
Proof.
  intros HD HN Hm Hmpos Hl He e1.
  set (k1 := e1 - e). assert (Hk1 : 0 <= k1) by (unfold k1, e1; lia).
  unfold binary_round_aux, shr_fexp. fold e1. fold k1.
  destruct (located_shr N D (shr_record_of_loc m l) e k1
              (located_of_loc N D m l HD HN Hm Hl)) as [Hloc1 He1].
  destruct (shr (shr_record_of_loc m l) e k1) as [mrs1 e1'].
  simpl in Hloc1, He1. rewrite Z.max_r in Hloc1, He1 by lia.
  assert (He1' : e1' = e1) by (unfold k1 in He1; lia). clear He1. subst e1'.
  assert (Hpow1 : 0 < 2 ^ k1) by (apply Z.pow_pos_nonneg; lia).
  destruct (round_nearest_even_located N (D * 2 ^ k1) mrs1 Hloc1) as [Hm2 Hnear].
  set (m2 := round_nearest_even (shr_m mrs1) (loc_of_shr_record mrs1)) in *.
  set (m1 := N / (D * 2 ^ k1)) in *.
  assert (Em1 : m1 = m / 2 ^ k1) by (unfold m1; rewrite Hm, Z.div_div by lia; reflexivity).
  pose proof (Zdigits2_bounds m Hmpos) as [Bmlo Bmhi].
  set (dm := Zdigits2 m) in *.
  assert (Hdm : 0 < dm) by (apply Zdigits2_pos; lia).
  assert (Hdmk : dm <= prec + k1)
    by (unfold k1, e1; pose proof (fexp_ge_sub (dm + e)); lia).
  assert (Hm1lo : 0 <= m1) by (rewrite Em1; apply Z.div_pos; lia).
  assert (Hm1hi : m1 < 2 ^ prec).
  { rewrite Em1. apply Z.div_lt_upper_bound; [lia|].
    rewrite <- Z.pow_add_r by lia.
    assert (2 ^ dm <= 2 ^ (k1 + prec)) by (apply Z.pow_le_mono_r; lia). lia. }
  assert (Hm2lo : 0 <= m2) by lia.
  assert (Hm2hi : m2 <= 2 ^ prec) by lia.
  destruct (located_shr m2 1 (shr_record_of_loc m2 loc_Exact) e1
              (fexp prec emax (Zdigits2 m2 + e1) - e1)) as [Hloc2 He3].
  { apply located_of_loc; [lia|lia|now rewrite Z.div_1_r|].
    unfold loc_of. now rewrite Z.mod_1_r. }
  set (k2 := fexp prec emax (Zdigits2 m2 + e1) - e1) in *.
  destruct (shr (shr_record_of_loc m2 loc_Exact) e1 k2) as [mrs2 e3].
  simpl in Hloc2, He3. destruct Hloc2 as (_ & _ & Hm3 & _).
  rewrite Z.mul_1_l in Hm3.
  assert (He1min : emin prec emax <= e1) by apply fexp_ge_emin.
  destruct (Z.eq_dec m2 0) as [Hz|Hnz].
  { left. rewrite Hm3, Hz, Z.div_0_l by (apply Z.pow_nonzero; lia).
    split; [reflexivity|]. fold k1. lia. }
  right.
  destruct (Z.eq_dec m2 (2 ^ prec)) as [Hfull|Hnfull].
  - (* the mantissa overflowed to [2 ^ prec] *)
    assert (Hd2 : Zdigits2 m2 = prec + 1).
    { apply Zdigits2_unique; [lia|]. rewrite Hfull.
      replace (prec + 1 - 1) with prec by lia. rewrite Z.pow_add_r by lia. lia. }
    assert (Hk2 : k2 = 1).
    { unfold k2. rewrite Hd2. unfold fexp. lia. }
    rewrite Hk2 in *. change (Z.max 0 1) with 1 in *.
    assert (Hm3v : shr_m mrs2 = 2 ^ (prec - 1)).
    { rewrite Hm3, Hfull. replace prec with (prec - 1 + 1) at 1 by lia.
      rewrite Z.pow_add_r by lia. apply Z.div_mul. discriminate. }
    assert (Hp1 : 0 < 2 ^ (prec - 1)) by (apply Z.pow_pos_nonneg; lia).
    destruct (shr_m mrs2) as [|m3|m3] eqn:Hsm; try lia.
    exists m3, e3. split; [reflexivity|].
    split.
    { unfold canonical_mantissa. apply Z.eqb_eq.
      change (Z.pos (digits2_pos m3)) with (Zdigits2 (Z.pos m3)).
      rewrite (Zdigits2_unique (Z.pos m3) prec); [unfold fexp; lia|lia|].
      rewrite Hm3v. split; [lia|]. apply Z.pow_lt_mono_r; lia. }
    split; [right; lia|].
    replace (Z.pos m3 * 2 ^ (e3 - e)) with (m2 * 2 ^ k1).
    2:{ rewrite Hm3v, Hfull. replace (e3 - e) with (k1 + 1) by (unfold k1; lia).
        rewrite <- !Z.pow_add_r by lia. f_equal. lia. }
    fold k1. nia.
  - (* the mantissa has at most [prec] digits *)
    assert (Hd2 : Zdigits2 m2 <= prec) by (apply Zdigits2_le; lia).
    assert (Hk2 : k2 <= 0).
    { unfold k2. unfold fexp. lia. }
    rewrite Z.max_l in Hm3, He3 by lia.
    rewrite Z.pow_0_r, Z.div_1_r in Hm3.
    destruct (shr_m mrs2) as [|m3|m3] eqn:Hsm; try lia.
    exists m3, e3. split; [reflexivity|].
    split.
    { unfold canonical_mantissa. apply Z.eqb_eq.
      change (Z.pos (digits2_pos m3)) with (Zdigits2 (Z.pos m3)).
      rewrite Hm3. replace e3 with e1 by lia.
      destruct (Z.eq_dec e1 (emin prec emax)) as [Hsub|Hnorm].
      - unfold fexp. lia.
      - assert (Ek1 : k1 = dm - prec) by (unfold k1, e1, fexp in *; lia).
        assert (2 ^ (prec - 1) <= m1).
        { rewrite Em1. apply Z.div_le_lower_bound; [lia|].
          rewrite <- Z.pow_add_r by lia.
          replace (k1 + (prec - 1)) with (dm - 1) by lia. lia. }
        assert (prec <= Zdigits2 m2) by (apply Zdigits2_ge; lia).
        unfold fexp. lia. }
    split; [left; lia|].
    replace (e3 - e) with k1 by (unfold k1; lia).
    rewrite Hm3. fold k1. nia.
Qed.

End BinaryRound.

(** The arithmetic of [a * t / |a|] on 24-digit mantissas, [t] the
    mantissa of [angular_speed_thresh]: the product [ma * mt] is rounded to
    [mx * 2 ^ jx], the quotient [mx * 2 ^ 24 / ma] to [m3 * 2 ^ j3]. *)
Lemma clamp_arith (ma mx m3 q k1 jx kq j3 : Z) :
  2 ^ 23 <= ma < 2 ^ 24 -> 2 ^ 23 <= mx < 2 ^ 24 -> 2 ^ 23 <= m3 < 2 ^ 24 ->
  (k1 = 23 \/ k1 = 24) ->
  2 ^ (k1 + 23) <= ma * 10066330 < 2 ^ (k1 + 24) ->
  (jx = k1 \/ jx = k1 + 1) ->
  - 2 ^ k1 <= 2 * (mx * 2 ^ jx - ma * 10066330) <= 2 ^ k1 ->
  q = mx * 2 ^ 24 / ma ->
  (kq = 0 \/ kq = 1) ->
  2 ^ (kq + 23) <= q < 2 ^ (kq + 24) ->
  (j3 = kq \/ j3 = kq + 1) ->
  - (ma * 2 ^ kq) <= 2 * (m3 * 2 ^ j3 * ma - mx * 2 ^ 24) <= ma * 2 ^ kq ->
  jx + j3 = 24 /\ 10066329 <= m3 <= 10066331.
Proof.
  intros Hma Hmx Hm3 Hk1 Hprod Hjx Hnx Hq Hkq Hqd Hj3 Hn3.
  assert (Hqlo : ma * q <= mx * 2 ^ 24 < ma * q + ma).
  { subst q. pose proof (Z.div_mod (mx * 2 ^ 24) ma ltac:(lia)).
    pose proof (Z.mod_pos_bound (mx * 2 ^ 24) ma ltac:(lia)). lia. }
  clear Hq.
  change (2 ^ 23) with 8388608 in *. change (2 ^ 24) with 16777216 in *.
  assert (Hq1 : 2 ^ (kq + 23) * ma <= ma * q)
    by (rewrite (Z.mul_comm ma q); apply Z.mul_le_mono_nonneg_r; lia).
  assert (Hq2 : ma * q + ma <= 2 ^ (kq + 24) * ma)
    by (replace (ma * q + ma) with ((q + 1) * ma) by ring;
        apply Z.mul_le_mono_nonneg_r; lia).
  assert (Hp1 : 8388608 * ma <= m3 * ma)
    by (apply Z.mul_le_mono_nonneg_r; lia).
  assert (Hp2 : m3 * ma + ma <= 16777216 * ma)
    by (replace (m3 * ma + ma) with ((m3 + 1) * ma) by ring;
        apply Z.mul_le_mono_nonneg_r; lia).
  assert (Hhi : 10066332 <= m3 -> 10066332 * ma <= m3 * ma)
    by (intros; apply Z.mul_le_mono_nonneg_r; lia).
  assert (Hlo : m3 <= 10066328 -> m3 * ma <= 10066328 * ma)
    by (intros; apply Z.mul_le_mono_nonneg_r; lia).
  destruct (Z_le_gt_dec 10066332 m3) as [Hc1|Hc1];
    [specialize (Hhi Hc1)|clear Hhi];
    (destruct (Z_le_gt_dec m3 10066328) as [Hc2|Hc2];
      [specialize (Hlo Hc2)|clear Hlo]);
    destruct Hk1 as [-> | ->]; destruct Hjx as [-> | ->];
    destruct Hkq as [-> | ->]; destruct Hj3 as [-> | ->];
    simpl Z.add in *;
    repeat match goal with
           | H : context [2 ^ ?n] |- _ =>
               let v := eval compute in (2 ^ n) in change (2 ^ n) with v in H
           end;
    lia.
Qed.

Lemma valid_binary_round_result (prec emax : Z) (s : bool) (m : positive) (e : Z) :
  canonical_mantissa prec emax m e = true ->
  valid_binary prec emax
    (if e <=? emax - prec then S754_finite s m e else S754_infinity s) = true.
Proof.
  intros Hc. destruct (Z.leb_spec e (emax - prec)) as [He|He]; [|reflexivity].
  simpl. unfold bounded. rewrite Hc. simpl. now apply Z.leb_le.
Qed.

(** Rounding any mantissa and exponent gives a float of the format: a
    conversion from [double] to [float] never leaves binary32. *)
Lemma binary_round_valid (prec emax : Z) (s : bool) (m : positive) (e : Z) :
  0 < prec ->
  valid_binary prec emax (binary_round prec emax s m e) = true.
Proof.
  intros Hprec. unfold binary_round.
  set (e' := fexp prec emax (Z.pos (digits2_pos m) + e)).
  pose proof (digits2_pos_bounds m) as [Blo Bhi].
  assert (Hal : exists mz ez,
             shl_align m e e' = (mz, ez) /\
             ez <= fexp prec emax (Zdigits2 (Z.pos mz) + ez)).
  { unfold shl_align. destruct (e' - e) as [|k|k] eqn:Hk.
    - exists m, e. split; [reflexivity|]. simpl Zdigits2. fold e'. lia.
    - exists m, e. split; [reflexivity|]. simpl Zdigits2. fold e'. lia.
    - exists (Pos.iter xO m k), e'. split; [reflexivity|].
      assert (Hd : Zdigits2 (Z.pos (Pos.iter xO m k)) = Z.pos (digits2_pos m) + Z.pos k).
      { apply Zdigits2_unique; [lia|]. rewrite iter_xO_value.
        replace (Z.pos (digits2_pos m) + Z.pos k - 1)
          with (Z.pos (digits2_pos m) - 1 + Z.pos k) by lia.
        rewrite !Z.pow_add_r by lia.
        assert (0 < 2 ^ Z.pos k) by (apply Z.pow_pos_nonneg; lia).
        split; [apply Z.mul_le_mono_nonneg_r; lia | apply Z.mul_lt_mono_pos_r; lia]. }
      rewrite Hd. replace (Z.pos (digits2_pos m) + Z.pos k + e')
        with (Z.pos (digits2_pos m) + e) by lia.
      fold e'. lia. }
  destruct Hal as (mz & ez & -> & Hez).
  destruct (binary_round_aux_spec prec emax Hprec s (Z.pos mz) 1 (Z.pos mz) ez loc_Exact)
    as [[-> _] | (m3 & e3 & -> & Hc & _)]; try lia.
  - now rewrite Z.div_1_r.
  - unfold loc_of. now rewrite Z.mod_1_r.
  - reflexivity.
  - now apply valid_binary_round_result.
Qed.

Lemma float_of_double_valid (d : spec_float) : F32.valid (float_of_double d) = true.
Proof.
  destruct d as [s|s| |s m e]; try reflexivity.
  apply binary_round_valid. unfold F32.prec. lia.
Qed.

(** The location that the division computes from its remainder. *)
Lemma new_location_spec (N D : Z) :
  0 < D -> new_location D (N mod D) = loc_of N D.
Proof.
  intros HD. pose proof (Z.mod_pos_bound N D HD) as Hr.
  unfold new_location, new_location_even, new_location_odd, loc_of.
  destruct (Z.even D) eqn:Hev; destruct (Z.eqb_spec (N mod D) 0) as [E0|E0];
    try reflexivity.
  f_equal.
  assert (Hodd : Z.odd D = true) by (rewrite <- Z.negb_even, Hev; reflexivity).
  apply Z.odd_spec in Hodd. destruct Hodd as [h Hh].
  destruct (Z.compare_spec (2 * (N mod D) + 1) D);
    symmetry; first [apply Z.compare_lt_iff | apply Z.compare_gt_iff]; lia.
Qed.

Lemma angular_speed_thresh_value :
  angular_speed_thresh = S754_finite false 10066330 (-25).
Proof. vm_compute. reflexivity. Qed.

(** A canonical binary32 mantissa above the subnormal range has 24
    digits. *)
Lemma canonical_normal (m : positive) (e : Z) :
  canonical_mantissa F32.prec F32.emax m e = true -> -149 < e ->
  2 ^ 23 <= Z.pos m < 2 ^ 24.
Proof.
  unfold canonical_mantissa, fexp, emin, F32.prec, F32.emax.
  intros Hc He. apply Z.eqb_eq in Hc.
  pose proof (digits2_pos_bounds m) as B.
  replace (Z.pos (digits2_pos m)) with 24 in B by lia. exact B.
Qed.

(** A [float] that compares greater than [angular_speed_thresh] in
    magnitude is normal. *)
Lemma above_thresh_normal (s : bool) (ma : positive) (ea : Z) :
  F32.valid (S754_finite s ma ea) = true ->
  fgt (SFabs (S754_finite s ma ea)) angular_speed_thresh = true ->
  2 ^ 23 <= Z.pos ma < 2 ^ 24 /\ -25 <= ea <= 104.
Proof.
  unfold F32.valid, valid_binary, bounded. intros Hv Hgt.
  apply andb_true_iff in Hv. destruct Hv as [Hc Hb]. apply Z.leb_le in Hb.
  rewrite angular_speed_thresh_value in Hgt.
  unfold fgt, SFltb, SFabs, SFcompare in Hgt.
  assert (He : -25 <= ea).
  { destruct (Z.compare_spec (-25) ea); first [lia | discriminate Hgt]. }
  split; [apply (canonical_normal ma ea Hc); lia|].
  unfold F32.emax, F32.prec in Hb. lia.
Qed.

(** [a * angular_speed_thresh] in binary32, for a normal [a]. *)
Lemma mul_thresh_spec (s : bool) (ma : positive) (ea : Z) :
  2 ^ 23 <= Z.pos ma < 2 ^ 24 -> -25 <= ea <= 104 ->
  exists (mx : positive) (k1 jx : Z),
    F32.mul (S754_finite s ma ea) (S754_finite false 10066330 (-25))
      = S754_finite s mx (ea - 25 + jx) /\
    2 ^ 23 <= Z.pos mx < 2 ^ 24 /\
    (k1 = 23 \/ k1 = 24) /\
    2 ^ (k1 + 23) <= Z.pos ma * 10066330 < 2 ^ (k1 + 24) /\
    (jx = k1 \/ jx = k1 + 1) /\
    - 2 ^ k1 <= 2 * (Z.pos mx * 2 ^ jx - Z.pos ma * 10066330) <= 2 ^ k1.
Proof.
  intros Hma Hea.
  unfold F32.mul, SFmul. rewrite xorb_false_r.
  set (N := Z.pos (ma * 10066330)).
  assert (HN : N = Z.pos ma * 10066330) by reflexivity.
  change (2 ^ 23) with 8388608 in Hma. change (2 ^ 24) with 16777216 in Hma.
  assert (Hk : exists k1, (k1 = 23 \/ k1 = 24) /\ 2 ^ (k1 + 23) <= N < 2 ^ (k1 + 24)).
  { destruct (Z_lt_le_dec N (2 ^ 47)) as [Hlt|Hge].
    - exists 23. split; [auto|]. change (2 ^ (23 + 23)) with 70368744177664.
      change (2 ^ (23 + 24)) with (2 ^ 47). lia.
    - exists 24. split; [auto|]. change (2 ^ (24 + 23)) with (2 ^ 47).
      change (2 ^ (24 + 24)) with 281474976710656. lia. }
  destruct Hk as (k1 & Hk1 & HNb).
  assert (Hd : Zdigits2 N = k1 + 24).
  { apply Zdigits2_unique; [lia|]. replace (k1 + 24 - 1) with (k1 + 23) by lia.
    exact HNb. }
  assert (He1 : fexp F32.prec F32.emax (Zdigits2 N + (ea + -25)) = ea + -25 + k1).
  { rewrite Hd. unfold fexp, emin, F32.prec, F32.emax. lia. }
  assert (Hdiv : N = N / 1) by now rewrite Z.div_1_r.
  assert (Hloc : loc_Exact = loc_of N 1) by (unfold loc_of; now rewrite Z.mod_1_r).
  assert (Hpre : ea + -25 <= fexp F32.prec F32.emax (Zdigits2 N + (ea + -25)))
    by (rewrite He1; lia).
  destruct (binary_round_aux_spec F32.prec F32.emax ltac:(unfold F32.prec; lia)
              s N 1 N (ea + -25) loc_Exact ltac:(lia) ltac:(lia) Hdiv ltac:(lia)
              Hloc Hpre)
    as [[_ Hz] | (mx & ex & Hr & Hc & Hex & Hb)].
  - exfalso. rewrite He1 in Hz.
    replace (ea + -25 + k1 - (ea + -25)) with k1 in Hz by lia.
    destruct Hk1 as [-> | ->];
      [change (2 ^ 23) with 8388608 in Hz | change (2 ^ 24) with 16777216 in Hz];
      lia.
  - rewrite He1 in Hex, Hb.
    replace (ea + -25 + k1 - (ea + -25)) with k1 in Hb by lia.
    assert (Hle : ex <= F32.emax - F32.prec) by (unfold F32.emax, F32.prec; lia).
    apply Z.leb_le in Hle. rewrite Hle in Hr.
    exists mx, k1, (ex - (ea + -25)).
    split; [rewrite Hr; f_equal; lia|].
    split; [apply (canonical_normal mx ex Hc); lia|].
    split; [exact Hk1|]. split; [rewrite <- HN; exact HNb|].
    split; [lia|]. rewrite <- HN. lia.
Qed.

(** The quotient of two normal binary32 mantissas, before rounding. *)
Lemma div_core_normal (mx ma : positive) (ex ea : Z) :
  2 ^ 23 <= Z.pos mx < 2 ^ 24 -> 2 ^ 23 <= Z.pos ma < 2 ^ 24 ->
  -100 <= ex - ea ->
  SFdiv_core_binary F32.prec F32.emax (Z.pos mx) ex (Z.pos ma) ea =
    (Z.pos mx * 2 ^ 24 / Z.pos ma, ex - ea - 24,
     loc_of (Z.pos mx * 2 ^ 24) (Z.pos ma)).
Proof.
  intros Hmx Hma He.
  unfold SFdiv_core_binary. simpl Zdigits2.
  rewrite (digits2_pos_unique mx 24), (digits2_pos_unique ma 24) by assumption.
  cbv zeta.
  match goal with
  | |- context [Z.min ?a ?b] =>
      replace (Z.min a b) with (ex - ea - 24)
        by (unfold fexp, emin, F32.prec, F32.emax; lia)
  end.
  replace (ex - ea - (ex - ea - 24)) with 24 by lia.
  cbv iota. rewrite Z.shiftl_mul_pow2 by lia.
  pose proof (new_location_spec (Z.pos mx * 2 ^ 24) (Z.pos ma) ltac:(lia)) as Hl.
  unfold Z.modulo, Z.div in *.
  destruct (Z.div_eucl (Z.pos mx * 2 ^ 24) (Z.pos ma)) as [q r].
  simpl. now rewrite Hl.
Qed.

(** [x / |a|] in binary32, for normal [x] and [a] of nearby exponents. *)
Lemma div_normal_spec (s : bool) (mx ma : positive) (ex ea : Z) :
  2 ^ 23 <= Z.pos mx < 2 ^ 24 -> 2 ^ 23 <= Z.pos ma < 2 ^ 24 ->
  -100 <= ex - ea <= 100 ->
  exists (m3 : positive) (kq j3 : Z),
    F32.div (S754_finite s mx ex) (S754_finite false ma ea)
      = S754_finite s m3 (ex - ea - 24 + j3) /\
    2 ^ 23 <= Z.pos m3 < 2 ^ 24 /\
    (kq = 0 \/ kq = 1) /\
    2 ^ (kq + 23) <= Z.pos mx * 2 ^ 24 / Z.pos ma < 2 ^ (kq + 24) /\
    (j3 = kq \/ j3 = kq + 1) /\
    - (Z.pos ma * 2 ^ kq)
      <= 2 * (Z.pos m3 * 2 ^ j3 * Z.pos ma - Z.pos mx * 2 ^ 24)
      <= Z.pos ma * 2 ^ kq.
Proof.
  intros Hmx Hma He.
  unfold F32.div, SFdiv. rewrite xorb_false_r.
  rewrite (div_core_normal mx ma ex ea Hmx Hma) by lia.
  set (N := Z.pos mx * 2 ^ 24). set (D := Z.pos ma). set (q := N / D).
  change (2 ^ 23) with 8388608 in Hmx, Hma.
  change (2 ^ 24) with 16777216 in Hmx, Hma.
  assert (Hqb : 8388608 <= q < 33554432).
  { unfold q, N, D. change (2 ^ 24) with 16777216. split.
    - apply Z.div_le_lower_bound; lia.
    - apply Z.div_lt_upper_bound; lia. }
  assert (Hk : exists kq, (kq = 0 \/ kq = 1) /\ 2 ^ (kq + 23) <= q < 2 ^ (kq + 24)).
  { destruct (Z_lt_le_dec q (2 ^ 24)) as [Hlt|Hge].
    - exists 0. split; [auto|]. change (2 ^ (0 + 23)) with 8388608.
      change (2 ^ (0 + 24)) with (2 ^ 24). lia.
    - exists 1. split; [auto|]. change (2 ^ (1 + 23)) with (2 ^ 24).
      change (2 ^ (1 + 24)) with 33554432. lia. }
  destruct Hk as (kq & Hkq & Hqd).
  assert (Hd : Zdigits2 q = kq + 24).
  { apply Zdigits2_unique; [lia|]. replace (kq + 24 - 1) with (kq + 23) by lia.
    exact Hqd. }
  assert (He1 : fexp F32.prec F32.emax (Zdigits2 q + (ex - ea - 24))
                = ex - ea - 24 + kq).
  { rewrite Hd. unfold fexp, emin, F32.prec, F32.emax. lia. }
  assert (Hpre : ex - ea - 24
                 <= fexp F32.prec F32.emax (Zdigits2 q + (ex - ea - 24)))
    by (rewrite He1; lia).
  assert (HN : 0 <= N) by (unfold N; lia).
  destruct (binary_round_aux_spec F32.prec F32.emax ltac:(unfold F32.prec; lia)
              s N D q (ex - ea - 24) (loc_of N D) ltac:(unfold D; lia) HN
              eq_refl ltac:(lia) eq_refl Hpre)
    as [[_ Hz] | (m3 & e3 & Hr & Hc & Hex & Hb)].
  - exfalso. rewrite He1 in Hz.
    replace (ex - ea - 24 + kq - (ex - ea - 24)) with kq in Hz by lia.
    unfold N, D in Hz. change (2 ^ 24) with 16777216 in Hz.
    destruct Hkq as [-> | ->];
      [change (2 ^ 0) with 1 in Hz | change (2 ^ 1) with 2 in Hz]; lia.
  - rewrite He1 in Hex, Hb.
    replace (ex - ea - 24 + kq - (ex - ea - 24)) with kq in Hb by lia.
    assert (Hle : e3 <= F32.emax - F32.prec) by (unfold F32.emax, F32.prec; lia).
    apply Z.leb_le in Hle. rewrite Hle in Hr.
    exists m3, kq, (e3 - (ex - ea - 24)).
    split; [rewrite Hr; f_equal; lia|].
    split; [apply (canonical_normal m3 e3 Hc); lia|].
    split; [exact Hkq|]. split; [exact Hqd|].
    split; [lia|]. exact Hb.
Qed.

(** The clamp of [seek] on a raw command above the threshold: the result
    keeps the sign, and its magnitude is [angular_speed_thresh] up to one
    unit in the last place. *)
Lemma limit_angular_control_saturated (s : bool) (ma : positive) (ea : Z) :
  F32.valid (S754_finite s ma ea) = true ->
  fgt (SFabs (S754_finite s ma ea)) angular_speed_thresh = true ->
  exists m3 : positive,
    limit_angular_control (S754_finite s ma ea) = S754_finite s m3 (-25) /\
    10066329 <= Z.pos m3 <= 10066331.
Proof.
  intros Hv Hgt. unfold limit_angular_control. rewrite Hgt.
  destruct (above_thresh_normal s ma ea Hv Hgt) as [Hma Hea].
  rewrite angular_speed_thresh_value.
  destruct (mul_thresh_spec s ma ea Hma Hea)
    as (mx & k1 & jx & -> & Hmx & Hk1 & Hprod & Hjx & Hnx).
  simpl SFabs.
  destruct (div_normal_spec s mx ma (ea - 25 + jx) ea Hmx Hma ltac:(lia))
    as (m3 & kq & j3 & -> & Hm3 & Hkq & Hqd & Hj3 & Hn3).
  destruct (clamp_arith (Z.pos ma) (Z.pos mx) (Z.pos m3)
              (Z.pos mx * 2 ^ 24 / Z.pos ma) k1 jx kq j3
              Hma Hmx Hm3 Hk1 Hprod Hjx Hnx eq_refl Hkq Hqd Hj3 Hn3)
    as [Hj Hm].
  exists m3. split; [f_equal; lia|exact Hm].
Qed.

(** ** Invariants of the callbacks and of the loop *)

Lemma reachable_spinOnce (queue : list Message) (p p' : Perception) :
  reachable p -> spinOnce queue p = Some p' -> reachable p'.
Proof.
  revert p. induction queue as [|m queue IH]; intros p Hr Hs; simpl in Hs.
  - now inversion Hs; subst.
  - destruct (deliver m p) as [p1|] eqn:Hd; [|discriminate].
    apply (IH p1); [|exact Hs]. now apply (reachable_deliver m p p1).
Qed.

Lemma loop_iteration_perception (queue : list Message) (n n' : Node) :
  loop_iteration queue n = Some n' ->
  spinOnce queue (node_perception n) = Some (node_perception n').
Proof.
  unfold loop_iteration.
  destruct (tick _ _ _) as [st out].
  destruct (spinOnce queue (node_perception n)) as [p'|]; [|discriminate].
  intros H. now inversion H.
Qed.

Lemma main_loop_reachable (queues : list (list Message)) (n n' : Node) :
  reachable (node_perception n) -> main_loop queues n = Some n' ->
  reachable (node_perception n').
Proof.
  revert n. induction queues as [|q queues IH]; intros n Hr Hm; simpl in Hm.
  - now inversion Hm; subst.
  - destruct (loop_iteration q n) as [n1|] eqn:Hit; [|discriminate].
    apply (IH n1); [|exact Hm].
    apply (reachable_spinOnce q (node_perception n)); [exact Hr|].
    now apply loop_iteration_perception.
Qed.

(** A frame that [blobsCallBack] evaluates without leaving its bounds
    has a count within the blobs present. *)
Lemma blobsCallBack_defined (blobsIn : Blobs) (p p' : Perception) :
  blobsCallBack blobsIn p = Some p' ->
  blob_count blobsIn <= Z.of_nat (length (blobs blobsIn)).
Proof.
  intros H. destruct (Z_le_gt_dec (blob_count blobsIn)
                        (Z.of_nat (length (blobs blobsIn)))) as [|Hgt]; [done|].
  exfalso. unfold blobsCallBack in H.
  destruct (Z.ltb_spec 0 (blob_count blobsIn)) as [Hpos|Hpos]; [|lia].
  change 0 with (Z.of_nat 0) in H at 1.
  rewrite blob_loop_out_of_bounds in H by lia. discriminate H.
Qed.

Lemma goal_flag_tracks_area (p : Perception) :
  reachable p ->
  goal_found_flag p = (3000 <? goal_blob_area p) /\ is_uint16 (goal_blob_area p).
Proof.
  induction 1 as [|m p p' Hreach IH Hdel].
  - split; [reflexivity|]. unfold is_uint16. simpl. lia.
  - destruct m as [blobsIn|cloud|bumper_msg]; simpl in Hdel.
    + destruct (Z.ltb_spec 0 (blob_count blobsIn)) as [Hpos|Hpos].
      * pose proof (blobsCallBack_defined blobsIn p p' Hdel) as Hlen.
        destruct (blobsCallBack_nonempty blobsIn p Hpos Hlen)
          as (p1 & Hrun & Ha & Hf & _).
        rewrite Hdel in Hrun. inversion Hrun; subst p1.
        rewrite Hf, Ha. split; [reflexivity|].
        unfold is_uint16. apply Z.mod_pos_bound. lia.
      * unfold blobsCallBack in Hdel.
        destruct (Z.ltb_spec 0 (blob_count blobsIn)); [lia|].
        now inversion Hdel; subst.
    + unfold PointCloud_Callback in Hdel.
      destruct (cloud_scan _) as [c|]; [|discriminate].
      destruct (10 <? _); [now inversion Hdel; subst|].
      destruct (negb (bumper_flag p)); now inversion Hdel; subst.
    + inversion Hdel; subst. unfold Bumper_Callback.
      now destruct (bumper_state bumper_msg =? 1).
Qed.

(** X1. Whatever messages are delivered during any number of iterations
    of the loop, the globals keep [obstacle_found_flag] set while
    [bumper_flag] is set. *)
Theorem main_loop_bumper_implies_obstacle
    (queues : list (list Message)) (n : Node) :
  main_loop queues initial_node = Some n ->
  bumper_flag (node_perception n) = true ->
  obstacle_found_flag (node_perception n) = true.
Proof.
  intros Hm. apply bumper_implies_obstacle.
  apply (main_loop_reachable queues initial_node); [|exact Hm].
  exact reachable_initial.
Qed.

Lemma main_loop_bumper_implies_obstacle_witness :
  obstacle_found_flag
    (node_perception
       {| node_state := 0;
          node_perception := Bumper_Callback (mkBumper 1 1) initial_perception;
          node_published := rotate [] |}) = true.
Proof.
  apply (main_loop_bumper_implies_obstacle [[BumperMsg (mkBumper 1 1)]]).
  - reflexivity.
  - reflexivity.
Defined.

(** X2. During the loop [goal_found_flag] is set exactly when the stored
    area exceeds 3000, and the stored area is a 16-bit value. *)
Theorem main_loop_goal_flag_tracks_area
    (queues : list (list Message)) (n : Node) :
  main_loop queues initial_node = Some n ->
  goal_found_flag (node_perception n) = (3000 <? goal_blob_area (node_perception n)) /\
  0 <= goal_blob_area (node_perception n) < 65536.
Proof.
  intros Hm. apply goal_flag_tracks_area.
  apply (main_loop_reachable queues initial_node); [|exact Hm].
  exact reachable_initial.
Qed.

Lemma main_loop_goal_flag_tracks_area_witness :
  exists n,
    main_loop [[BlobsMsg large_target_frame]] initial_node = Some n /\
    goal_found_flag (node_perception n) = (3000 <? goal_blob_area (node_perception n)) /\
    0 <= goal_blob_area (node_perception n) < 65536.
Proof.
  eexists. split; [vm_compute; reflexivity|].
  apply (main_loop_goal_flag_tracks_area [[BlobsMsg large_target_frame]]).
  vm_compute. reflexivity.
Defined.

(** ** The callbacks *)

Lemma area_sum_nonneg (bs : list Blob) :
  Forall blob_uint32 bs -> 0 <= area_sum bs.
Proof.
  induction 1 as [|b bs Hb _ IH]; simpl; [lia|].
  destruct Hb as (_ & _ & _ & Ha & _). unfold is_uint32 in Ha. lia.
Qed.

Lemma matched_area_sum_nonneg (blobsIn : Blobs) :
  Forall blob_uint32 (blobs blobsIn) -> 0 <= matched_area_sum blobsIn.
Proof.
  intros Hall. unfold matched_area_sum, matched_blobs.
  apply area_sum_nonneg.
  apply List.Forall_forall. intros b Hin.
  apply List.incl_filter in Hin.
  pose proof (Forall_take _ (Z.to_nat (blob_count blobsIn)) _ Hall) as Ht.
  rewrite List.Forall_forall in Ht. now apply Ht.
Qed.

Lemma filter_none {A : Type} (f : A -> bool) (l : list A) :
  Forall (fun a => f a = false) l -> List.filter f l = [].
Proof.
  induction 1 as [|a l Ha _ IH]; simpl; [reflexivity|]. now rewrite Ha.
Qed.

(** A buffer whose points are all at one depth, not nearer than 0.7,
    has no near point. *)
Lemma near_point_count_uniform (n : Z) (z : spec_float) :
  closer_than_min_z (mkPoint fzero fzero z) = false ->
  near_point_count (uniform_cloud n z) = 0.
Proof.
  intros Hfar. unfold near_point_count, region_of_interest, uniform_cloud, points.
  rewrite filter_none; [reflexivity|].
  apply Forall_take, Forall_drop, List.Forall_forall.
  intros pt Hin. apply repeat_spec in Hin. now subst pt.
Qed.

(** X3. On a well-formed, non-empty frame whose matched areas sum to less
    than 65536, the stored area is that sum and the goal is found exactly
    when the sum exceeds 3000. *)
Theorem blobsCallBack_without_overflow (blobsIn : Blobs) (p : Perception) :
  0 < blob_count blobsIn ->
  well_formed_blobs blobsIn ->
  matched_area_sum blobsIn < 65536 ->
  exists p',
    blobsCallBack blobsIn p = Some p' /\
    goal_blob_area p' = matched_area_sum blobsIn /\
    goal_found_flag p' = (3000 <? matched_area_sum blobsIn).
Proof.
  intros Hpos [Hlen Hall] Hsum.
  destruct (blobsCallBack_nonempty blobsIn p Hpos Hlen) as (p' & Hrun & Ha & Hf & _).
  pose proof (matched_area_sum_nonneg blobsIn Hall) as H0.
  rewrite Z.mod_small in Ha, Hf by (change (2 ^ 16) with 65536; lia).
  exists p'. auto.
Qed.

Lemma blobsCallBack_without_overflow_witness :
  exists p',
    blobsCallBack {| blob_count := 2;
                     blobs := [target_blob 2000 100 50; target_blob 1001 200 60] |}
      initial_perception = Some p' /\
    goal_blob_area p' = 3001 /\ goal_found_flag p' = true.
Proof.
  apply (blobsCallBack_without_overflow
           {| blob_count := 2;
              blobs := [target_blob 2000 100 50; target_blob 1001 200 60] |}
           initial_perception).
  - simpl. lia.
  - split; [simpl; lia|].
    repeat constructor; unfold is_uint32; simpl; lia.
  - vm_compute. reflexivity.
Defined.

(** X4. Each callback writes only the globals of its own sensor: the
    blob callback leaves the obstacle and bumper flags, the depth callback
    leaves the goal globals and the bumper flag, the bumper callback leaves
    the goal globals. *)
Theorem callbacks_write_their_own_globals :
  (forall blobsIn p p',
     blobsCallBack blobsIn p = Some p' ->
     obstacle_found_flag p' = obstacle_found_flag p /\
     bumper_flag p' = bumper_flag p) /\
  (forall cloud p p',
     PointCloud_Callback cloud p = Some p' ->
     goal_found_flag p' = goal_found_flag p /\
     goal_blob_area p' = goal_blob_area p /\
     goal_x p' = goal_x p /\
     bumper_flag p' = bumper_flag p) /\
  (forall bumper_msg p,
     goal_found_flag (Bumper_Callback bumper_msg p) = goal_found_flag p /\
     goal_blob_area (Bumper_Callback bumper_msg p) = goal_blob_area p /\
     goal_x (Bumper_Callback bumper_msg p) = goal_x p).
Proof.
  repeat split.
  - unfold blobsCallBack in H. destruct (0 <? blob_count blobsIn);
      [|now inversion H].
    destruct (for_loop _ _ _ _) as [acc|]; [|discriminate].
    destruct (3000 <? acc_area acc); now inversion H.
  - unfold blobsCallBack in H. destruct (0 <? blob_count blobsIn);
      [|now inversion H].
    destruct (for_loop _ _ _ _) as [acc|]; [|discriminate].
    destruct (3000 <? acc_area acc); now inversion H.
  - unfold PointCloud_Callback in H. destruct (cloud_scan _); [|discriminate].
    destruct (10 <? _); [now inversion H|].
    destruct (negb (bumper_flag p)); now inversion H.
  - unfold PointCloud_Callback in H. destruct (cloud_scan _); [|discriminate].
    destruct (10 <? _); [now inversion H|].
    destruct (negb (bumper_flag p)); now inversion H.
  - unfold PointCloud_Callback in H. destruct (cloud_scan _); [|discriminate].
    destruct (10 <? _); [now inversion H|].
    destruct (negb (bumper_flag p)); now inversion H.
  - unfold PointCloud_Callback in H. destruct (cloud_scan _); [|discriminate].
    destruct (10 <? _); [now inversion H|].
    destruct (negb (bumper_flag p)); now inversion H.
  - unfold Bumper_Callback. now destruct (bumper_state bumper_msg =? 1).
  - unfold Bumper_Callback. now destruct (bumper_state bumper_msg =? 1).
  - unfold Bumper_Callback. now destruct (bumper_state bumper_msg =? 1).
Qed.

Lemma callbacks_write_their_own_globals_witness :
  obstacle_found_flag
    {| goal_found_flag := false; obstacle_found_flag := false;
       bumper_flag := false; goal_blob_area := 2000; goal_x := fzero |}
  = obstacle_found_flag initial_perception /\
  bumper_flag
    {| goal_found_flag := false; obstacle_found_flag := false;
       bumper_flag := false; goal_blob_area := 2000; goal_x := fzero |}
  = bumper_flag initial_perception.
Proof.
  apply (proj1 callbacks_write_their_own_globals large_target_frame).
  vm_compute. reflexivity.
Defined.

(** X5. Contact is sticky. While the bumper is pressed a depth frame with
    at most 10 near points does not clear the obstacle flag; the release
    clears the bumper flag only; the next such depth frame after the
    release clears the obstacle flag. *)
Theorem bumper_release_then_depth_clears_obstacle
    (pressed released : BumperEvent) (cloud : PointCloud) (p : Perception) :
  bumper_state pressed = 1 ->
  bumper_state released <> 1 ->
  268800 <= Z.of_nat (length (points cloud)) ->
  near_point_count cloud <= 10 ->
  let contact := Bumper_Callback pressed p in
  let after := Bumper_Callback released contact in
  PointCloud_Callback cloud contact = Some contact /\
  obstacle_found_flag contact = true /\ bumper_flag contact = true /\
  obstacle_found_flag after = true /\ bumper_flag after = false /\
  exists p',
    PointCloud_Callback cloud after = Some p' /\
    obstacle_found_flag p' = false /\ bumper_flag p' = false.
Proof.
  intros Hp Hr Hlen Hn contact after.
  assert (Hc : contact = {| goal_found_flag := goal_found_flag p;
                            obstacle_found_flag := true; bumper_flag := true;
                            goal_blob_area := goal_blob_area p;
                            goal_x := goal_x p |}).
  { unfold contact, Bumper_Callback. apply Z.eqb_eq in Hp. now rewrite Hp. }
  assert (Ha : after = {| goal_found_flag := goal_found_flag p;
                          obstacle_found_flag := true; bumper_flag := false;
                          goal_blob_area := goal_blob_area p;
                          goal_x := goal_x p |}).
  { unfold after, Bumper_Callback at 1. apply Z.eqb_neq in Hr. rewrite Hr, Hc.
    reflexivity. }
  assert (Hlt : (10 <? near_point_count cloud) = false) by (apply Z.ltb_ge; lia).
  destruct (cloud_scan_count cloud Hlen) as [c [Hscan Hcount]].
  split.
  { unfold PointCloud_Callback. rewrite Hscan, Hcount, Hlt, Hc. reflexivity. }
  rewrite Hc, Ha. simpl. repeat split.
  unfold PointCloud_Callback. rewrite Hscan, Hcount, Hlt. simpl.
  eexists. split; [reflexivity|]. simpl. auto.
Qed.

Lemma bumper_release_then_depth_clears_obstacle_witness :
  let cloud := uniform_cloud 307200 (F32.of_Z 2) in
  let contact := Bumper_Callback (mkBumper 1 1) initial_perception in
  let after := Bumper_Callback (mkBumper 1 0) contact in
  PointCloud_Callback cloud contact = Some contact /\
  obstacle_found_flag contact = true /\ bumper_flag contact = true /\
  obstacle_found_flag after = true /\ bumper_flag after = false /\
  exists p',
    PointCloud_Callback cloud after = Some p' /\
    obstacle_found_flag p' = false /\ bumper_flag p' = false.
Proof.
  intros cloud.
  apply (bumper_release_then_depth_clears_obstacle
           (mkBumper 1 1) (mkBumper 1 0) cloud initial_perception).
  - reflexivity.
  - simpl. lia.
  - unfold cloud, uniform_cloud, points. rewrite repeat_length. lia.
  - unfold cloud. rewrite near_point_count_uniform; [lia|].
    vm_compute. reflexivity.
Defined.

Lemma Perception_eq (p q : Perception) :
  goal_found_flag p = goal_found_flag q ->
  obstacle_found_flag p = obstacle_found_flag q ->
  bumper_flag p = bumper_flag q ->
  goal_blob_area p = goal_blob_area q ->
  goal_x p = goal_x q ->
  p = q.
Proof. destruct p, q; simpl; intros; subst; reflexivity. Qed.

(** X6. The depth callback looks at rows 180 to 419 only: two buffers
    that agree on that region have the same effect on any snapshot. *)
Theorem PointCloud_Callback_reads_region_only
    (cloud1 cloud2 : PointCloud) (p : Perception) :
  268800 <= Z.of_nat (length (points cloud1)) ->
  268800 <= Z.of_nat (length (points cloud2)) ->
  region_of_interest cloud1 = region_of_interest cloud2 ->
  PointCloud_Callback cloud1 p = PointCloud_Callback cloud2 p.
Proof.
  intros H1 H2 Hroi.
  destruct (PointCloud_Callback_in_bounds cloud1 p H1)
    as (p1 & -> & Ho1 & Hb1 & Hg1 & Ha1 & Hx1).
  destruct (PointCloud_Callback_in_bounds cloud2 p H2)
    as (p2 & -> & Ho2 & Hb2 & Hg2 & Ha2 & Hx2).
  f_equal. apply Perception_eq; try congruence.
  rewrite Ho1, Ho2. unfold near_point_count. now rewrite Hroi.
Qed.

Lemma two_band_cloud_length (z_top z_roi : spec_float) (tail : Z) :
  0 <= tail ->
  Z.of_nat (length (points (two_band_cloud z_top z_roi tail))) = 268800 + tail.
Proof.
  intros Ht. unfold two_band_cloud, points.
  rewrite !length_app, !repeat_length. lia.
Qed.

Lemma two_band_cloud_region (z_top z_roi : spec_float) (tail : Z) :
  region_of_interest (two_band_cloud z_top z_roi tail)
  = repeat (mkPoint fzero fzero z_roi) (Z.to_nat 153600).
Proof.
  unfold region_of_interest, two_band_cloud, points.
  rewrite drop_app_length' by (rewrite repeat_length; lia).
  rewrite take_app_length' by (rewrite repeat_length; lia).
  reflexivity.
Qed.

Lemma PointCloud_Callback_reads_region_only_witness :
  PointCloud_Callback (two_band_cloud (F32.of_Z 2) (F32.of_Z 1) 0)
    initial_perception
  = PointCloud_Callback (two_band_cloud fzero (F32.of_Z 1) 38400)
      initial_perception.
Proof.
  apply PointCloud_Callback_reads_region_only.
  - rewrite two_band_cloud_length; lia.
  - rewrite two_band_cloud_length; lia.
  - now rewrite !two_band_cloud_region.
Defined.

(** X7. The next state. From Search and from Approach alike it is Avoid
    when an obstacle is flagged, else Approach when the goal is found, else
    Search. From Avoid it is Reached when the stored area exceeds 30720,
    else Search on bumper contact, else Avoid while the obstacle is
    flagged, else Search. Reached stays, and any other value of [state]
    is left alone. *)
Theorem tick_next_state (state : Z) (p : Perception) (out : list Twist) :
  well_typed p ->
  fst (tick state p out) =
    if (state =? Search) || (state =? Approach) then
      if obstacle_found_flag p then Avoid
      else if goal_found_flag p then Approach else Search
    else if state =? Avoid then
      if 30720 <? goal_blob_area p then Reached
      else if bumper_flag p then Search
      else if obstacle_found_flag p then Avoid else Search
    else state.
Proof.
  intros Hty. unfold Search, Approach, Avoid, Reached.
  destruct (Z.eqb_spec state 0) as [->|H0].
  { simpl. now destruct (obstacle_found_flag p), (goal_found_flag p). }
  destruct (Z.eqb_spec state 1) as [->|H1].
  { simpl. now destruct (obstacle_found_flag p), (goal_found_flag p). }
  destruct (Z.eqb_spec state 2) as [->|H2].
  { simpl. rewrite (obstacle_is_target_spec p Hty).
    destruct (30720 <? goal_blob_area p); [reflexivity|].
    now destruct (bumper_flag p), (obstacle_found_flag p). }
  unfold tick. destruct state as [|[[|[]|]|[|[]|]|]|]; try reflexivity; lia.
Qed.

Lemma tick_next_state_witness :
  fst (tick Approach
         {| goal_found_flag := false; obstacle_found_flag := false;
            bumper_flag := false; goal_blob_area := 100; goal_x := fzero |} [])
  = Search.
Proof.
  apply (tick_next_state Approach
           {| goal_found_flag := false; obstacle_found_flag := false;
              bumper_flag := false; goal_blob_area := 100; goal_x := fzero |} []).
  unfold well_typed, is_uint16. simpl. lia.
Defined.

Lemma times_publish (n : Z) (T : Twist) (out : list Twist) :
  times n (publish T) out = out ++ repeat T (Z.to_nat n).
Proof.
  unfold times. induction (Z.to_nat n) as [|k IH]; simpl.
  - now rewrite app_nil_r.
  - rewrite IH. unfold publish. rewrite <- app_assoc. f_equal.
    symmetry. apply repeat_cons.
Qed.

(** X8. The two manoeuvres of Avoid, when the stored area does not exceed
    30720. On bumper contact the tick publishes 40000 retreat commands,
    then 40000 rotate commands, then 40000 advance commands, in this
    order, and returns to Search. Without contact and without obstacle it
    publishes 100000 advance commands and returns to Search. *)
Theorem avoid_manoeuvres (p : Perception) (out : list Twist) :
  well_typed p ->
  goal_blob_area p <= 30720 ->
  (bumper_flag p = true ->
   tick Avoid p out =
     (Search,
      out ++ repeat retreat_command (Z.to_nat 40000)
          ++ repeat rotate_command (Z.to_nat 40000)
          ++ repeat advance_command (Z.to_nat 40000))) /\
  (bumper_flag p = false -> obstacle_found_flag p = false ->
   tick Avoid p out =
     (Search, out ++ repeat advance_command (Z.to_nat 100000))).
Proof.
  intros Hty Ha. unfold tick, Avoid, Search.
  rewrite (obstacle_is_target_spec p Hty).
  apply Z.ltb_ge in Ha. rewrite Ha.
  split.
  - intros ->.
    change advance with (publish advance_command).
    change rotate with (publish rotate_command).
    change retreat with (publish retreat_command).
    rewrite !times_publish, <- !app_assoc. reflexivity.
  - intros -> ->.
    change advance with (publish advance_command).
    rewrite times_publish. reflexivity.
Qed.

Lemma avoid_manoeuvres_witness :
  tick Avoid
    {| goal_found_flag := false; obstacle_found_flag := false;
       bumper_flag := false; goal_blob_area := 0; goal_x := fzero |} []
  = (Search, [] ++ repeat advance_command (Z.to_nat 100000)).
Proof.
  apply (avoid_manoeuvres
           {| goal_found_flag := false; obstacle_found_flag := false;
              bumper_flag := false; goal_blob_area := 0; goal_x := fzero |} []).
  - unfold well_typed, is_uint16. simpl. lia.
  - simpl. lia.
  - reflexivity.
  - reflexivity.
Defined.

(** ** The loop *)

Lemma tick_state_range (state : Z) (p : Perception) (out : list Twist) :
  0 <= state <= 3 -> 0 <= fst (tick state p out) <= 3.
Proof.
  intros Hs. unfold tick.
  destruct state as [|[[|[]|]|[|[]|]|]|]; try lia; cbn [fst]; try lia.
  - destruct (obstacle_found_flag p), (goal_found_flag p); cbn [fst negb]; lia.
  - destruct (obstacle_is_target p); [cbn [fst]; lia|].
    destruct (bumper_flag p); [cbn [fst]; lia|].
    destruct (obstacle_found_flag p); cbn [fst]; lia.
  - destruct (obstacle_found_flag p), (goal_found_flag p); cbn [fst negb]; lia.
Qed.

Lemma tick_enters_reached (state : Z) (p : Perception) (out : list Twist) :
  well_typed p -> state <> Reached -> fst (tick state p out) = Reached ->
  state = Avoid /\ 30720 < goal_blob_area p.
Proof.
  intros Hty Hne Hr. unfold Reached, Avoid in *. unfold tick in Hr.
  destruct state as [|[[|[]|]|[|[]|]|]|]; cbn [fst] in Hr; try lia.
  - destruct (obstacle_found_flag p), (goal_found_flag p); cbn [fst negb] in Hr; lia.
  - rewrite (obstacle_is_target_spec p Hty) in Hr.
    destruct (Z.ltb_spec 30720 (goal_blob_area p)); [lia|].
    destruct (bumper_flag p); [cbn [fst] in Hr; lia|].
    destruct (obstacle_found_flag p); cbn [fst] in Hr; lia.
  - destruct (obstacle_found_flag p), (goal_found_flag p); cbn [fst negb] in Hr; lia.
Qed.

Lemma loop_iteration_state (queue : list Message) (n n' : Node) :
  loop_iteration queue n = Some n' ->
  node_state n' = fst (tick (node_state n) (node_perception n) (node_published n)) /\
  node_published n' = snd (tick (node_state n) (node_perception n) (node_published n)).
Proof.
  unfold loop_iteration.
  destruct (tick _ _ _) as [st out].
  destruct (spinOnce queue (node_perception n)) as [p'|]; [|discriminate].
  intros H. now inversion H.
Qed.

(** X9. The controller enters Reached from Avoid only, and only while the
    goal is found with a stored area above 30720: in particular never
    directly from Approach. *)
Theorem loop_enters_reached_from_avoid
    (queues : list (list Message)) (queue : list Message) (n n' : Node) :
  main_loop queues initial_node = Some n ->
  loop_iteration queue n = Some n' ->
  node_state n <> Reached -> node_state n' = Reached ->
  node_state n = Avoid /\
  goal_found_flag (node_perception n) = true /\
  30720 < goal_blob_area (node_perception n).
Proof.
  intros Hm Hit Hne Hr.
  assert (Hreach : reachable (node_perception n))
    by (apply (main_loop_reachable queues initial_node);
        [exact reachable_initial|exact Hm]).
  destruct (goal_flag_tracks_area _ Hreach) as [Hflag Hty].
  destruct (loop_iteration_state queue n n' Hit) as [Hst _].
  rewrite Hst in Hr.
  destruct (tick_enters_reached _ _ _ Hty Hne Hr) as [Ha Harea].
  split; [exact Ha|]. split; [|exact Harea].
  rewrite Hflag. apply Z.ltb_lt. lia.
Qed.

Lemma loop_enters_reached_from_avoid_witness :
  Avoid = Avoid /\
  goal_found_flag
    {| goal_found_flag := true; obstacle_found_flag := true;
       bumper_flag := true; goal_blob_area := 40000;
       goal_x := S754_zero false |} = true /\
  30720 < 40000.
Proof.
  apply (loop_enters_reached_from_avoid
           [[BlobsMsg {| blob_count := 1; blobs := [target_blob 40000 320 240] |};
             BumperMsg (mkBumper 1 1)]; []]
           []
           {| node_state := Avoid;
              node_perception :=
                {| goal_found_flag := true; obstacle_found_flag := true;
                   bumper_flag := true; goal_blob_area := 40000;
                   goal_x := S754_zero false |};
              node_published := rotate [] |}
           {| node_state := Reached;
              node_perception :=
                {| goal_found_flag := true; obstacle_found_flag := true;
                   bumper_flag := true; goal_blob_area := 40000;
                   goal_x := S754_zero false |};
              node_published := rotate [] |}).
  - vm_compute. reflexivity.
  - vm_compute. reflexivity.
  - unfold Avoid, Reached. simpl. lia.
  - reflexivity.
Defined.

(** X12. The global [state] only ever holds one of the four values 0 to
    3. *)
Theorem main_loop_state_range (queues : list (list Message)) (n : Node) :
  main_loop queues initial_node = Some n -> 0 <= node_state n <= 3.
Proof.
  assert (H : forall n0, 0 <= node_state n0 <= 3 ->
                main_loop queues n0 = Some n -> 0 <= node_state n <= 3).
  { induction queues as [|q queues IH]; intros n0 H0 Hm; simpl in Hm.
    - now inversion Hm; subst.
    - destruct (loop_iteration q n0) as [n1|] eqn:Hit; [|discriminate].
      apply (IH n1); [|exact Hm].
      destruct (loop_iteration_state q n0 n1 Hit) as [-> _].
      now apply tick_state_range. }
  apply H. simpl. lia.
Qed.

Lemma main_loop_state_range_witness :
  0 <= node_state
         {| node_state := 2;
            node_perception := Bumper_Callback (mkBumper 1 1) initial_perception;
            node_published := rotate [] |} <= 3.
Proof.
  apply (main_loop_state_range [[BumperMsg (mkBumper 1 1)]; []]).
  reflexivity.
Defined.

(** X11. Every callback is idempotent: a message delivered twice in a row
    leaves the globals as after the first delivery. *)
Theorem deliver_idempotent (m : Message) (p p' : Perception) :
  deliver m p = Some p' -> deliver m p' = Some p'.
Proof.
  destruct m as [blobsIn|cloud|bumper_msg]; simpl.
  - unfold blobsCallBack.
    destruct (0 <? blob_count blobsIn); [|now intros H; inversion H].
    destruct (for_loop _ _ _ _) as [acc|]; [|discriminate].
    destruct (3000 <? acc_area acc); intros H; inversion H; reflexivity.
  - unfold PointCloud_Callback.
    destruct (cloud_scan _) as [c|]; [|discriminate].
    destruct (10 <? _); [intros H; inversion H; reflexivity|].
    destruct (bumper_flag p) eqn:Hb; simpl; intros H; inversion H; subst; simpl.
    + now rewrite Hb.
    + reflexivity.
  - unfold Bumper_Callback.
    destruct (bumper_state bumper_msg =? 1); intros H; inversion H; reflexivity.
Qed.

Lemma deliver_idempotent_witness :
  deliver (BlobsMsg large_target_frame)
    {| goal_found_flag := false; obstacle_found_flag := false;
       bumper_flag := false; goal_blob_area := 2000; goal_x := fzero |}
  = Some {| goal_found_flag := false; obstacle_found_flag := false;
            bumper_flag := false; goal_blob_area := 2000; goal_x := fzero |}.
Proof.
  apply (deliver_idempotent (BlobsMsg large_target_frame) initial_perception).
  vm_compute. reflexivity.
Defined.

(** ** Depth values *)

(** Rounding keeps the sign: the result is a zero, a finite value or an
    infinity of the sign of the input. *)
Lemma binary_round_sign (prec emax : Z) (s : bool) (m : positive) (e : Z) :
  0 < prec ->
  binary_round prec emax s m e = S754_zero s \/
  binary_round prec emax s m e = S754_infinity s \/
  exists m' e', binary_round prec emax s m e = S754_finite s m' e'.
Proof.
  intros Hprec. unfold binary_round.
  set (e0 := fexp prec emax (Z.pos (digits2_pos m) + e)).
  assert (Hal : exists mz ez,
             shl_align m e e0 = (mz, ez) /\
             ez <= fexp prec emax (Zdigits2 (Z.pos mz) + ez)).
  { unfold shl_align. destruct (e0 - e) as [|k|k] eqn:Hk.
    - exists m, e. split; [reflexivity|]. simpl Zdigits2. fold e0. lia.
    - exists m, e. split; [reflexivity|]. simpl Zdigits2. fold e0. lia.
    - exists (Pos.iter xO m k), e0. split; [reflexivity|].
      pose proof (digits2_pos_bounds m) as [Blo Bhi].
      assert (Hd : Zdigits2 (Z.pos (Pos.iter xO m k)) = Z.pos (digits2_pos m) + Z.pos k).
      { apply Zdigits2_unique; [lia|]. rewrite iter_xO_value.
        replace (Z.pos (digits2_pos m) + Z.pos k - 1)
          with (Z.pos (digits2_pos m) - 1 + Z.pos k) by lia.
        rewrite !Z.pow_add_r by lia.
        assert (0 < 2 ^ Z.pos k) by (apply Z.pow_pos_nonneg; lia).
        split; [apply Z.mul_le_mono_nonneg_r; lia | apply Z.mul_lt_mono_pos_r; lia]. }
      rewrite Hd. replace (Z.pos (digits2_pos m) + Z.pos k + e0)
        with (Z.pos (digits2_pos m) + e) by lia.
      fold e0. lia. }
  destruct Hal as (mz & ez & -> & Hez).
  assert (Hdiv : Z.pos mz = Z.pos mz / 1) by now rewrite Z.div_1_r.
  assert (Hloc : loc_Exact = loc_of (Z.pos mz) 1)
    by (unfold loc_of; now rewrite Z.mod_1_r).
  destruct (binary_round_aux_spec prec emax Hprec s (Z.pos mz) 1 (Z.pos mz) ez
              loc_Exact ltac:(lia) ltac:(lia) Hdiv ltac:(lia) Hloc Hez)
    as [[-> _] | (m3 & e3 & -> & _)]; [now left|].
  right. destruct (e3 <=? emax - prec); [right; eauto|now left].
Qed.

(** X13. Which depth values count as near. A point whose depth is NaN
    (no return) or plus infinity is never counted; a point whose depth is
    zero, negative or minus infinity is always counted. *)
Theorem depth_values_counted (px py : spec_float) :
  closer_than_min_z (mkPoint px py S754_nan) = false /\
  closer_than_min_z (mkPoint px py (S754_infinity false)) = false /\
  closer_than_min_z (mkPoint px py (S754_infinity true)) = true /\
  (forall s, closer_than_min_z (mkPoint px py (S754_zero s)) = true) /\
  (forall m e, closer_than_min_z (mkPoint px py (S754_finite true m e)) = true).
Proof.
  assert (Hmin : min_z = S754_finite false 6305039478318694 (-53))
    by (vm_compute; reflexivity).
  unfold closer_than_min_z, flt. simpl pt_z. rewrite Hmin.
  repeat split; try reflexivity.
  intros m e. unfold double_of_float, F64.round.
  destruct (binary_round_sign F64.prec F64.emax true m e ltac:(unfold F64.prec; lia))
    as [-> | [-> | (m' & e' & ->)]]; reflexivity.
Qed.

(** ** The range of the steering command *)

Lemma canonical_digits (prec emax : Z) (m : positive) (e : Z) :
  canonical_mantissa prec emax m e = true -> Z.pos (digits2_pos m) <= prec.
Proof.
  unfold canonical_mantissa. intros Hc. apply Z.eqb_eq in Hc.
  pose proof (fexp_ge_sub prec emax (Z.pos (digits2_pos m) + e)). lia.
Qed.

Lemma digits2_pos_mul (m1 m2 : positive) :
  Z.pos (digits2_pos m1) + Z.pos (digits2_pos m2) - 1
    <= Z.pos (digits2_pos (m1 * m2))
    <= Z.pos (digits2_pos m1) + Z.pos (digits2_pos m2).
Proof.
  pose proof (digits2_pos_bounds m1) as [L1 H1].
  pose proof (digits2_pos_bounds m2) as [L2 H2].
  set (d1 := Z.pos (digits2_pos m1)) in *.
  set (d2 := Z.pos (digits2_pos m2)) in *.
  assert (0 < 2 ^ (d1 - 1)) by (apply Z.pow_pos_nonneg; lia).
  assert (0 < 2 ^ (d2 - 1)) by (apply Z.pow_pos_nonneg; lia).
  change (Z.pos (digits2_pos (m1 * m2))) with (Zdigits2 (Z.pos (m1 * m2))).
  rewrite Pos2Z.inj_mul. split.
  - apply Zdigits2_ge; [|lia].
    replace (d1 + d2 - 1 - 1) with ((d1 - 1) + (d2 - 1)) by lia.
    rewrite Z.pow_add_r by lia. apply Z.mul_le_mono_nonneg; lia.
  - apply Zdigits2_le; [lia|]. split; [lia|].
    rewrite Z.pow_add_r by lia. apply Z.mul_lt_mono_nonneg; lia.
Qed.



Lemma angular_speed_value : angular_speed = S754_finite false 11744051 (-24).
Proof. vm_compute. reflexivity. Qed.

Lemma lit_7_10_value : F64.lit 7 10 = S754_finite false 6305039478318694 (-53).
Proof. vm_compute. reflexivity. Qed.





(** ** What the blob callback depends on *)

(** The loop is a fold of [accumulate_blob] over the matched blobs among
    those it visits. *)
Lemma blob_loop_fold (bs : list Blob) (n i : nat) (acc : BlobAcc) :
  (i + n <= length bs)%nat ->
  for_loop n (Z.of_nat i) (blob_step bs) acc =
    Some (fold_left accumulate_blob
            (List.filter color_matches (take n (drop i bs))) acc).
Proof.
  revert i acc. induction n as [|n IH]; intros i acc Hlen; [reflexivity|].
  destruct (lookup_lt_is_Some_2 bs i) as [b Hb]; [lia|].
  rewrite for_loop_S. unfold blob_step at 1. rewrite Nat2Z.id, Hb.
  rewrite (drop_S _ _ _ Hb). cbn [take List.filter].
  replace (Z.of_nat i + 1) with (Z.of_nat (S i)) by lia.
  destruct (color_matches b); rewrite IH by lia; reflexivity.
Qed.

(** X15. Only the blobs of the target colour among the first
    [blob_count] matter: two non-empty in-bounds frames with the same
    matched blobs have the same effect on any snapshot, whatever other
    blobs they carry. *)
Theorem blobsCallBack_depends_on_matched_blobs
    (frame1 frame2 : Blobs) (p : Perception) :
  0 < blob_count frame1 <= Z.of_nat (length (blobs frame1)) ->
  0 < blob_count frame2 <= Z.of_nat (length (blobs frame2)) ->
  matched_blobs frame1 = matched_blobs frame2 ->
  blobsCallBack frame1 p = blobsCallBack frame2 p.
Proof.
  intros [Hp1 Hl1] [Hp2 Hl2] Hm. unfold blobsCallBack.
  apply Z.ltb_lt in Hp1, Hp2. rewrite Hp1, Hp2.
  change 0 with (Z.of_nat 0).
  rewrite !blob_loop_fold by lia.
  rewrite !drop_0. fold (matched_blobs frame1). fold (matched_blobs frame2).
  now rewrite Hm.
Qed.

Lemma blobsCallBack_depends_on_matched_blobs_witness :
  blobsCallBack
    {| blob_count := 1; blobs := [target_blob 4000 300 200] |}
    initial_perception
  = blobsCallBack
      {| blob_count := 2;
         blobs := [mkBlob 238 114 76 9000 10 10; target_blob 4000 300 200;
                   target_blob 5000 20 20] |}
      initial_perception.
Proof.
  apply blobsCallBack_depends_on_matched_blobs.
  - simpl. lia.
  - simpl. lia.
  - reflexivity.
Defined.

(** X16. Without any message the robot turns on the spot: after [k]
    iterations of the loop the controller is still in Search and has
    published [k] rotate commands and nothing else. *)
Theorem main_loop_without_messages (k : nat) :
  main_loop (repeat [] k) initial_node =
    Some {| node_state := Search; node_perception := initial_perception;
            node_published := repeat rotate_command k |}.
Proof.
  assert (H : forall out,
             main_loop (repeat [] k)
               {| node_state := Search; node_perception := initial_perception;
                  node_published := out |}
             = Some {| node_state := Search;
                       node_perception := initial_perception;
                       node_published := out ++ repeat rotate_command k |}).
  { induction k as [|k IH]; intros out; simpl.
    - now rewrite app_nil_r.
    - unfold loop_iteration. simpl. fold Search. rewrite IH.
      unfold rotate, publish. fold rotate_command.
      now rewrite <- app_assoc. }
  apply (H []).
Qed.

(** ** The depth threshold on [float] values *)

(** A mantissa of at most [prec] digits converts exactly, whatever its
    exponent, as long as the normalised exponent stays in the format. *)
Lemma binary_round_exact (prec emax : Z) (s : bool) (p : positive) (e : Z) :
  let d := Z.pos (digits2_pos p) in
  0 < prec -> d <= prec ->
  emin prec emax <= e - (prec - d) <= emax - prec ->
  binary_round prec emax s p e =
    S754_finite s (Z.to_pos (Z.pos p * 2 ^ (prec - d))) (e - (prec - d)).
Proof.
  intros d Hp Hd He.
  unfold binary_round.
  assert (Hf : fexp prec emax (Z.pos (digits2_pos p) + e) = e - (prec - d)).
  { unfold fexp. fold d. lia. }
  rewrite Hf. unfold shl_align.
  destruct (e - (prec - d) - e) as [|k|k] eqn:Hk; try lia.
  - assert (Hdp : d = prec) by lia.
    replace (Z.to_pos (Z.pos p * 2 ^ (prec - d))) with p
      by (rewrite Hdp, Z.sub_diag; simpl; lia).
    rewrite Hdp, Z.sub_diag, Z.sub_0_r.
    apply binary_round_aux_canonical; [|lia].
    unfold canonical_mantissa. fold d. apply Z.eqb_eq. unfold fexp. lia.
  - assert (Hk' : Z.pos k = prec - d) by lia.
    replace (Z.to_pos (Z.pos p * 2 ^ (prec - d))) with (Pos.iter xO p k).
    2:{ rewrite <- Hk', <- iter_xO_value. reflexivity. }
    apply binary_round_aux_canonical; [|lia].
    unfold canonical_mantissa. apply Z.eqb_eq.
    assert (Z.pos (digits2_pos (Pos.iter xO p k)) = prec) as ->.
    { apply digits2_pos_unique. rewrite iter_xO_value, Hk'.
      pose proof (digits2_pos_bounds p) as [Blo Bhi]. fold d in Blo, Bhi.
      assert (E1 : 2 ^ (prec - 1) = 2 ^ (d - 1) * 2 ^ (prec - d))
        by (rewrite <- Z.pow_add_r by lia; f_equal; lia).
      assert (E2 : 2 ^ prec = 2 ^ d * 2 ^ (prec - d))
        by (rewrite <- Z.pow_add_r by lia; f_equal; lia).
      assert (0 < 2 ^ (prec - d)) by (apply Z.pow_pos_nonneg; lia).
      rewrite E1, E2. split; nia. }
    unfold fexp. lia.
Qed.

(** X17. The test [pt.z < min_z] on a positive [float] depth: the point
    is counted exactly when the depth is at most 11744051 * 2^-24, the
    [float] nearest to 0.7. That value itself is counted, although the
    comparison is strict, because it lies below the [double] 0.7. *)
Theorem positive_depth_counted (px py : spec_float) (m : positive) (e : Z) :
  F32.valid (S754_finite false m e) = true ->
  closer_than_min_z (mkPoint px py (S754_finite false m e)) =
    (e <? -24) || ((e =? -24) && (Z.pos m <=? 11744051)).
Proof.
  intros Hv. unfold F32.valid, valid_binary, bounded in Hv.
  apply andb_true_iff in Hv. destruct Hv as [Hc Hb]. apply Z.leb_le in Hb.
  pose proof (canonical_digits _ _ _ _ Hc) as Hd.
  unfold canonical_mantissa in Hc. apply Z.eqb_eq in Hc.
  unfold fexp, emin, F32.prec, F32.emax in Hc, Hb, Hd.
  pose proof (digits2_pos_bounds m) as [Blo Bhi].
  set (d := Z.pos (digits2_pos m)) in *.
  assert (Hd0 : 0 < d) by (unfold d; lia).
  assert (Hmin : min_z = S754_finite false 6305039478318694 (-53))
    by (vm_compute; reflexivity).
  unfold closer_than_min_z, flt, double_of_float, F64.round. simpl pt_z.
  rewrite Hmin.
  rewrite binary_round_exact
    by (fold d; unfold emin, F64.prec, F64.emax; lia).
  fold d. unfold F64.prec.
  assert (Hpow : 0 < 2 ^ (53 - d)) by (apply Z.pow_pos_nonneg; lia).
  assert (HM : Z.pos (Z.to_pos (Z.pos m * 2 ^ (53 - d))) = Z.pos m * 2 ^ (53 - d))
    by (apply Z2Pos.id; lia).
  revert HM. generalize (Z.to_pos (Z.pos m * 2 ^ (53 - d))). intros M HM.
  unfold SFltb, SFcompare.
  destruct (Z.compare_spec (e - (53 - d)) (-53)) as [He|He|He].
  - assert (He24 : e = -24) by lia. assert (Hd24 : d = 24) by lia.
    rewrite Hd24 in HM. change (2 ^ (53 - 24)) with 536870912 in HM.
    rewrite Pos.compare_cont_spec. unfold Pos.switch_Eq.
    rewrite Pos2Z.inj_compare, HM.
    replace (e <? -24) with false by (symmetry; apply Z.ltb_ge; lia).
    replace (e =? -24) with true by (symmetry; apply Z.eqb_eq; lia).
    simpl orb. simpl andb.
    destruct (Z.compare_spec (Z.pos m * 536870912) 6305039478318694);
      symmetry; first [apply Z.leb_le | apply Z.leb_gt]; lia.
  - replace (e <? -24) with true by (symmetry; apply Z.ltb_lt; lia).
    reflexivity.
  - replace (e <? -24) with false by (symmetry; apply Z.ltb_ge; lia).
    replace (e =? -24) with false by (symmetry; apply Z.eqb_neq; lia).
    reflexivity.
Qed.

Lemma positive_depth_counted_witness :
  closer_than_min_z (mkPoint fzero fzero (S754_finite false 11744051 (-24)))
  = (-24 <? -24) || ((-24 =? -24) && (Z.pos 11744051 <=? 11744051)).
Proof.
  apply (positive_depth_counted fzero fzero 11744051 (-24)).
  vm_compute. reflexivity.
Defined.

(** ** The depth test against the exact threshold *)

(** On a binary32 depth the test [pt.z < min_z] of the code decides
    whether the depth lies strictly below 7/10: no [float] lies between
    the [double] 0.7 and 7/10. *)
Lemma closer_than_min_z_exact (pt : PointXYZ) :
  F32.valid (pt_z pt) = true ->
  closer_than_min_z pt = depth_below_0_7 (pt_z pt).
Proof.
  assert (Hmin : min_z = S754_finite false 6305039478318694 (-53))
    by (vm_compute; reflexivity).
  unfold closer_than_min_z, flt. rewrite Hmin.
  destruct (pt_z pt) as [s|s| |s m e]; intros Hv.
  - reflexivity.
  - now destruct s.
  - reflexivity.
  - destruct s.
    + unfold double_of_float, F64.round.
      destruct (binary_round_sign F64.prec F64.emax true m e
                  ltac:(unfold F64.prec; lia))
        as [-> | [-> | (m' & e' & ->)]]; reflexivity.
    + unfold F32.valid, valid_binary, bounded in Hv.
      apply andb_true_iff in Hv. destruct Hv as [Hc Hb]. apply Z.leb_le in Hb.
      pose proof (canonical_digits _ _ _ _ Hc) as Hd.
      unfold canonical_mantissa in Hc. apply Z.eqb_eq in Hc.
      unfold fexp, emin, F32.prec, F32.emax in Hc, Hb, Hd.
      pose proof (digits2_pos_bounds m) as [Blo Bhi].
      set (d := Z.pos (digits2_pos m)) in *.
      assert (Hd0 : 0 < d) by (unfold d; lia).
      unfold double_of_float, F64.round.
      rewrite binary_round_exact
        by (fold d; unfold emin, F64.prec, F64.emax; lia).
      fold d. unfold F64.prec.
      assert (Hpow : 0 < 2 ^ (53 - d)) by (apply Z.pow_pos_nonneg; lia).
      assert (HM : Z.pos (Z.to_pos (Z.pos m * 2 ^ (53 - d)))
                   = Z.pos m * 2 ^ (53 - d)) by (apply Z2Pos.id; lia).
      revert HM. generalize (Z.to_pos (Z.pos m * 2 ^ (53 - d))). intros M HM.
      unfold SFltb, SFcompare, depth_below_0_7.
      destruct (Z.compare_spec (e - (53 - d)) (-53)) as [He|He|He].
      * (* the exponent of 0.7: the mantissas decide *)
        assert (He24 : e = -24) by lia. assert (Hd24 : d = 24) by lia.
        rewrite Hd24 in HM. change (2 ^ (53 - 24)) with 536870912 in HM.
        rewrite Pos.compare_cont_spec. unfold Pos.switch_Eq.
        rewrite Pos2Z.inj_compare, HM. rewrite He24.
        change (0 <=? -24) with false. change (2 ^ (- -24)) with 16777216.
        cbv iota.
        destruct (Z.compare_spec (Z.pos m * 536870912) 6305039478318694);
          symmetry; first [apply Z.ltb_lt | apply Z.ltb_ge]; lia.
      * (* below one half *)
        assert (Hneg : e < 0) by lia.
        replace (0 <=? e) with false by (symmetry; apply Z.leb_gt; lia).
        symmetry. apply Z.ltb_lt.
        assert (Hle : 2 ^ d <= 2 ^ (- e - 1)) by (apply Z.pow_le_mono_r; lia).
        replace (- e) with (- e - 1 + 1) by lia.
        rewrite Z.pow_add_r by lia. change (2 ^ 1) with 2. lia.
      * (* at least one *)
        assert (Hd24 : d = 24) by lia. rewrite Hd24 in Blo.
        change (2 ^ (24 - 1)) with 8388608 in Blo.
        destruct (Z.leb_spec 0 e) as [Hpos|Hneg].
        -- symmetry. apply Z.ltb_ge.
           assert (0 < 2 ^ e) by (apply Z.pow_pos_nonneg; lia). nia.
        -- symmetry. apply Z.ltb_ge.
           assert (Hle : 2 ^ (- e) <= 2 ^ 23) by (apply Z.pow_le_mono_r; lia).
           change (2 ^ 23) with 8388608 in Hle. lia.
Qed.

(** On a buffer of binary32 depths the entries that the scan collects
    are as many as the points of the region of interest below 7/10. *)
Lemma near_point_count_exact (cloud : PointCloud) :
  float_depths cloud -> near_point_count cloud = points_below_0_7 cloud.
Proof.
  intros Hall. unfold near_point_count, points_below_0_7. do 2 f_equal.
  apply List.filter_ext_in. intros pt Hin.
  apply closer_than_min_z_exact.
  unfold float_depths in Hall.
  pose proof (Forall_take _ (240 * 640)%nat _
                (Forall_drop _ (180 * 640)%nat _ Hall)) as Hroi.
  rewrite List.Forall_forall in Hroi. now apply Hroi.
Qed.

Lemma float_depths_uniform (n : Z) (z : spec_float) :
  F32.valid z = true -> float_depths (uniform_cloud n z).
Proof.
  intros Hz. unfold float_depths, uniform_cloud, points.
  apply List.Forall_forall. intros pt Hin.
  apply repeat_spec in Hin. now subst pt.
Qed.

Lemma filter_all {A : Type} (f : A -> bool) (l : list A) :
  Forall (fun a => f a = true) l -> List.filter f l = l.
Proof.
  induction 1 as [|a l Ha _ IH]; simpl; [reflexivity|]. now rewrite Ha, IH.
Qed.

(** In a full frame at one depth either all 153600 points of the region
    of interest lie below 7/10 or none does. *)
Lemma points_below_uniform (z : spec_float) :
  points_below_0_7 (uniform_cloud 307200 z) =
    if depth_below_0_7 z then 153600 else 0.
Proof.
  unfold points_below_0_7, region_of_interest, uniform_cloud, points.
  destruct (depth_below_0_7 z) eqn:Hz.
  - rewrite filter_all.
    + rewrite length_take, length_drop, repeat_length. lia.
    + apply Forall_take, Forall_drop, List.Forall_forall.
      intros pt Hin. apply repeat_spec in Hin. now subst pt.
  - rewrite filter_none; [reflexivity|].
    apply Forall_take, Forall_drop, List.Forall_forall.
    intros pt Hin. apply repeat_spec in Hin. now subst pt.
Qed.

(** C2. After the evaluation of a depth frame of binary32 depths that
    covers the region of interest, in any snapshot the callbacks can have
    produced, [obstacle_found_flag] is set exactly when more than 10 points
    of rows 180 to 419 have a depth strictly below 7/10 or [bumper_flag]
    is set; the evaluation leaves [bumper_flag] as it was. *)
Theorem obstacle_found_sticky_or (cloud : PointCloud) (p : Perception) :
  reachable p ->
  268800 <= Z.of_nat (length (points cloud)) ->
  float_depths cloud ->
  exists p',
    PointCloud_Callback cloud p = Some p' /\
    (obstacle_found_flag p' = true <->
       10 < points_below_0_7 cloud \/ bumper_flag p = true) /\
    bumper_flag p' = bumper_flag p.
Proof.
  intros Hreach Hlen Hfl. unfold PointCloud_Callback.
  destruct (cloud_scan_count cloud Hlen) as [c [Hscan Hc]].
  rewrite Hscan, Hc, (near_point_count_exact cloud Hfl).
  destruct (Z.ltb_spec 10 (points_below_0_7 cloud)) as [Hn|Hn].
  - eexists. split; [reflexivity|]. simpl. split; [|reflexivity]. tauto.
  - destruct (bumper_flag p) eqn:Hb; simpl.
    + exists p. split; [reflexivity|]. split; [|exact Hb].
      rewrite (bumper_implies_obstacle p Hreach Hb). tauto.
    + eexists. split; [reflexivity|]. simpl. split; [|reflexivity].
      split; [discriminate|]. intros [H|H]; [lia|discriminate].
Qed.

(** The three cases of C2 on full frames: a frame at depth 1/2 raises the
    flag; a frame at depth 2 leaves it raised while the bumper is pressed;
    the same frame clears it without contact. *)
Lemma obstacle_found_sticky_or_witness :
  (exists p',
     PointCloud_Callback (uniform_cloud 307200 (S754_finite false 8388608 (-24)))
       initial_perception = Some p' /\
     obstacle_found_flag p' = true) /\
  (exists p',
     PointCloud_Callback (uniform_cloud 307200 (F32.of_Z 2))
       (Bumper_Callback (mkBumper 1 1) initial_perception) = Some p' /\
     obstacle_found_flag p' = true) /\
  (exists p',
     PointCloud_Callback (uniform_cloud 307200 (F32.of_Z 2))
       initial_perception = Some p' /\
     obstacle_found_flag p' = false).
Proof.
  assert (Hlen : forall z,
             268800 <= Z.of_nat (length (points (uniform_cloud 307200 z)))).
  { intros z. unfold uniform_cloud, points. rewrite repeat_length. lia. }
  split; [|split].
  - destruct (obstacle_found_sticky_or
                (uniform_cloud 307200 (S754_finite false 8388608 (-24)))
                initial_perception reachable_initial (Hlen _)
                (float_depths_uniform 307200
                   (S754_finite false 8388608 (-24)) eq_refl))
      as (p' & Hrun & Hiff & _).
    exists p'. split; [exact Hrun|]. apply Hiff. left.
    rewrite points_below_uniform. simpl. lia.
  - destruct (obstacle_found_sticky_or
                (uniform_cloud 307200 (F32.of_Z 2))
                (Bumper_Callback (mkBumper 1 1) initial_perception)
                (reachable_deliver (BumperMsg (mkBumper 1 1)) _ _
                   reachable_initial eq_refl)
                (Hlen _) (float_depths_uniform 307200 (F32.of_Z 2) eq_refl))
      as (p' & Hrun & Hiff & _).
    exists p'. split; [exact Hrun|]. apply Hiff. right. reflexivity.
  - destruct (obstacle_found_sticky_or
                (uniform_cloud 307200 (F32.of_Z 2))
                initial_perception reachable_initial (Hlen _)
                (float_depths_uniform 307200 (F32.of_Z 2) eq_refl))
      as (p' & Hrun & Hiff & _).
    exists p'. split; [exact Hrun|].
    destruct (obstacle_found_flag p'); [|reflexivity].
    destruct (proj1 Hiff eq_refl) as [H|H].
    + rewrite points_below_uniform in H. simpl in H. lia.
    + discriminate H.
Defined.

(** ** The steering law *)

(** C6 fails on the code. For [goal_x = 55] the raw command is
    -14129562 * 2^-19, about -26.95, and [seek] rescales it to
    -10066331 * 2^-25, about -0.30000004: the published [angular.z]
    exceeds [angular_speed_thresh] = 10066330 * 2^-25, and 3/10, in
    magnitude, where the comment of [seek] says that the command is
    limited to within the threshold. *)
Theorem seek_exceeds_angular_speed_thresh :
  let p := {| goal_found_flag := true; obstacle_found_flag := false;
              bumper_flag := false; goal_blob_area := 4000;
              goal_x := F32.of_Z 55 |} in
  raw_angular_control (goal_x p) = S754_finite true 14129562 (-19) /\
  angular_speed_thresh = S754_finite false 10066330 (-25) /\
  seek p [] =
    [{| linear := mkVector3 (S754_finite false 7566047674630144 (-56))
                            fzero fzero;
        angular := mkVector3 fzero fzero
                     (double_of_float (S754_finite true 10066331 (-25))) |}] /\
  fgt (SFabs (double_of_float (S754_finite true 10066331 (-25))))
      (double_of_float angular_speed_thresh) = true /\
  3 * 2 ^ 25 < 10 * 10066331.
Proof.
  cbv zeta. repeat split; try (vm_compute; reflexivity).
Qed.

(** ** The gain of the steering command *)

(** Rounding an integer mantissa of at least [prec] digits, away from
    the subnormal range and from overflow: the result is normal, at the
    exponent of the format or the next, within half a unit. *)
Lemma binary_round_aux_normal (prec emax : Z) (s : bool) (m : positive) (e : Z) :
  let d := Z.pos (digits2_pos m) in
  0 < prec -> prec <= d ->
  emin prec emax < d + e - prec -> d + e - prec + 1 <= emax - prec ->
  exists (m' : positive) (j : Z),
    binary_round_aux prec emax s (Z.pos m) e loc_Exact
      = S754_finite s m' (e + j) /\
    Z.pos (digits2_pos m') = prec /\
    (j = d - prec \/ j = d - prec + 1) /\
    - 2 ^ (d - prec) <= 2 * (Z.pos m' * 2 ^ j - Z.pos m) <= 2 ^ (d - prec).
Proof.
  intros d Hprec Hd Hlo Hhi.
  assert (He1 : fexp prec emax (Zdigits2 (Z.pos m) + e) = e + (d - prec)).
  { change (Zdigits2 (Z.pos m)) with d. unfold fexp. lia. }
  assert (Hdiv : Z.pos m = Z.pos m / 1) by now rewrite Z.div_1_r.
  assert (Hloc : loc_Exact = loc_of (Z.pos m) 1)
    by (unfold loc_of; now rewrite Z.mod_1_r).
  assert (Hpre : e <= fexp prec emax (Zdigits2 (Z.pos m) + e))
    by (rewrite He1; lia).
  pose proof (digits2_pos_bounds m) as [Blo _]. fold d in Blo.
  assert (Hpw : 2 ^ (d - prec) <= 2 ^ (d - 1)) by (apply Z.pow_le_mono_r; lia).
  assert (Hpp : 0 < 2 ^ (d - prec)) by (apply Z.pow_pos_nonneg; lia).
  destruct (binary_round_aux_spec prec emax Hprec s (Z.pos m) 1 (Z.pos m) e
              loc_Exact ltac:(lia) ltac:(lia) Hdiv ltac:(lia) Hloc Hpre)
    as [[_ Hz] | (m3 & e3 & Hr & Hc & He3 & Hb)].
  - exfalso. rewrite He1 in Hz.
    replace (e + (d - prec) - e) with (d - prec) in Hz by lia. lia.
  - rewrite He1 in He3, Hb.
    replace (e + (d - prec) - e) with (d - prec) in Hb by lia.
    assert (Hle : (e3 <=? emax - prec) = true) by (apply Z.leb_le; lia).
    rewrite Hle in Hr.
    exists m3, (e3 - e).
    split; [rewrite Hr; f_equal; lia|].
    split.
    { unfold canonical_mantissa, fexp in Hc. apply Z.eqb_eq in Hc. lia. }
    split; [lia|]. lia.
Qed.

(** The product of two normal floats of a format, away from the
    subnormal range and from overflow. *)
Lemma SFmul_normal (prec emax : Z) (sx sy : bool) (mx my : positive) (ex ey : Z) :
  0 < prec ->
  Z.pos (digits2_pos mx) = prec -> Z.pos (digits2_pos my) = prec ->
  emin prec emax < ex + ey + prec - 1 -> ex + ey + prec + 1 <= emax - prec ->
  exists (m' : positive) (k j : Z),
    SFmul prec emax (S754_finite sx mx ex) (S754_finite sy my ey)
      = S754_finite (xorb sx sy) m' (ex + ey + j) /\
    Z.pos (digits2_pos m') = prec /\
    (k = prec - 1 \/ k = prec) /\
    2 ^ (k + prec - 1) <= Z.pos mx * Z.pos my < 2 ^ (k + prec) /\
    (j = k \/ j = k + 1) /\
    - 2 ^ k <= 2 * (Z.pos m' * 2 ^ j - Z.pos mx * Z.pos my) <= 2 ^ k.
Proof.
  intros Hprec Hdx Hdy Hlo Hhi.
  pose proof (digits2_pos_mul mx my) as Hd. rewrite Hdx, Hdy in Hd.
  pose proof (digits2_pos_bounds (mx * my)) as HB.
  rewrite Pos2Z.inj_mul in HB.
  destruct (binary_round_aux_normal prec emax (xorb sx sy) (mx * my) (ex + ey)
              Hprec ltac:(lia) ltac:(lia) ltac:(lia))
    as (m' & j & Hr & Hdm & Hj & Hb).
  rewrite Pos2Z.inj_mul in Hb.
  exists m', (Z.pos (digits2_pos (mx * my)) - prec), j.
  split; [exact Hr|]. split; [exact Hdm|]. split; [lia|].
  split.
  { replace (Z.pos (digits2_pos (mx * my)) - prec + prec - 1)
      with (Z.pos (digits2_pos (mx * my)) - 1) by lia.
    replace (Z.pos (digits2_pos (mx * my)) - prec + prec)
      with (Z.pos (digits2_pos (mx * my))) by lia.
    exact HB. }
  split; [exact Hj|exact Hb].
Qed.

(** Rounding a normal mantissa of at least [prec] digits to the format. *)
Lemma binary_round_normal (prec emax : Z) (s : bool) (m : positive) (e : Z) :
  let d := Z.pos (digits2_pos m) in
  0 < prec -> prec <= d ->
  emin prec emax < d + e - prec -> d + e - prec + 1 <= emax - prec ->
  exists (m' : positive) (j : Z),
    binary_round prec emax s m e = S754_finite s m' (e + j) /\
    Z.pos (digits2_pos m') = prec /\
    (j = d - prec \/ j = d - prec + 1) /\
    - 2 ^ (d - prec) <= 2 * (Z.pos m' * 2 ^ j - Z.pos m) <= 2 ^ (d - prec).
Proof.
  intros d Hprec Hd Hlo Hhi. unfold binary_round.
  assert (Hal : shl_align m e (fexp prec emax (Z.pos (digits2_pos m) + e)) = (m, e)).
  { unfold shl_align. fold d.
    destruct (fexp prec emax (d + e) - e) eqn:Hk; try reflexivity.
    unfold fexp in Hk. lia. }
  rewrite Hal. now apply binary_round_aux_normal.
Qed.

(** The three roundings of the raw command, on the mantissas. *)
Lemma gain_arith (mg m1 m3 m4 k1 j1 k3 j3 j4 : Z) :
  2 ^ 23 <= mg < 2 ^ 24 -> 2 ^ 23 <= m1 < 2 ^ 24 ->
  2 ^ 52 <= m3 < 2 ^ 53 -> 2 ^ 23 <= m4 < 2 ^ 24 ->
  (k1 = 23 \/ k1 = 24) ->
  2 ^ (k1 + 23) <= mg * 11744051 < 2 ^ (k1 + 24) ->
  (j1 = k1 \/ j1 = k1 + 1) ->
  - 2 ^ k1 <= 2 * (m1 * 2 ^ j1 - mg * 11744051) <= 2 ^ k1 ->
  (k3 = 52 \/ k3 = 53) ->
  2 ^ (k3 + 52) <= m1 * 2 ^ 29 * 6305039478318694 < 2 ^ (k3 + 53) ->
  (j3 = k3 \/ j3 = k3 + 1) ->
  - 2 ^ k3 <= 2 * (m3 * 2 ^ j3 - m1 * 2 ^ 29 * 6305039478318694) <= 2 ^ k3 ->
  (j4 = 29 \/ j4 = 30) ->
  - 2 ^ 29 <= 2 * (m4 * 2 ^ j4 - m3) <= 2 ^ 29 ->
  2 ^ 22 * Z.abs (m4 * 2 ^ (j1 + j3 + j4 - 29)
                  - mg * (11744051 * 6305039478318694))
    <= mg * (11744051 * 6305039478318694).
Proof.
  intros Hmg Hm1 Hm3 Hm4 Hk1 Hp1 Hj1 Hn1 Hk3 Hp3 Hj3 Hn3 Hj4 Hn4.
  destruct Hk1 as [-> | ->]; destruct Hj1 as [-> | ->];
    destruct Hk3 as [-> | ->]; destruct Hj3 as [-> | ->];
    destruct Hj4 as [-> | ->];
    cbn [Z.add Z.sub Z.opp Pos.add Pos.succ Pos.add_carry Z.pos_sub
         Pos.pred_double Z.succ_double Z.pred_double Z.double] in *;
    repeat match goal with
           | H : context [2 ^ Z.pos ?p] |- _ =>
               let v := eval vm_compute in (2 ^ Z.pos p) in
               change (2 ^ Z.pos p) with v in H
           | |- context [2 ^ Z.pos ?p] =>
               let v := eval vm_compute in (2 ^ Z.pos p) in
               change (2 ^ Z.pos p) with v
           end;
    lia.
Qed.

(** The raw command of [seek] for a normal offset: minus the offset
    times 11744051 * 6305039478318694 * 2^-77 (the product of the
    [float] 0.7 and the [double] 0.7), up to a relative error of
    2^-22 that the three roundings leave. *)
Lemma raw_angular_control_normal (s : bool) (mg : positive) (eg : Z) :
  2 ^ 23 <= Z.pos mg < 2 ^ 24 -> -100 <= eg <= 100 ->
  exists (m4 : positive) (E4 : Z),
    raw_angular_control (S754_finite s mg eg) = S754_finite (negb s) m4 E4 /\
    2 ^ 23 <= Z.pos m4 < 2 ^ 24 /\
    eg - 2 <= E4 <= eg + 3 /\
    2 ^ 22 * Z.abs (Z.pos m4 * 2 ^ (E4 - eg + 77)
                    - Z.pos mg * (11744051 * 6305039478318694))
      <= Z.pos mg * (11744051 * 6305039478318694).
Proof.
  intros Hmg Heg.
  unfold raw_angular_control. rewrite angular_speed_value, lit_7_10_value.
  cbn [SFopp]. unfold F32.mul.
  destruct (SFmul_normal F32.prec F32.emax (negb s) false mg 11744051 eg (-24)
              ltac:(unfold F32.prec; lia)
              (digits2_pos_unique mg 24 Hmg) eq_refl
              ltac:(unfold emin, F32.prec, F32.emax; lia)
              ltac:(unfold F32.prec, F32.emax; lia))
    as (m1 & k1 & j1 & -> & Hd1 & Hk1 & Hp1 & Hj1 & Hn1).
  rewrite xorb_false_r. unfold F32.prec in Hd1, Hk1, Hp1.
  pose proof (digits2_pos_bounds m1) as Hm1. rewrite Hd1 in Hm1.
  change (24 - 1) with 23 in Hm1.
  replace (24 - 1) with 23 in Hk1 by lia.
  (* promotion to double *)
  unfold double_of_float, F64.round.
  pose proof (binary_round_exact F64.prec F64.emax (negb s) m1 (eg + -24 + j1)
                ltac:(unfold F64.prec; lia)) as H2.
  cbv zeta in H2. rewrite Hd1 in H2.
  rewrite H2
    by (unfold emin, F64.prec, F64.emax; lia).
  clear H2. unfold F64.prec at 1 2.
  change (53 - 24) with 29.
  set (M2 := Z.to_pos (Z.pos m1 * 2 ^ 29)).
  assert (HM2 : Z.pos M2 = Z.pos m1 * 2 ^ 29)
    by (unfold M2; rewrite Z2Pos.id; lia).
  assert (HdM2 : Z.pos (digits2_pos M2) = F64.prec).
  { apply digits2_pos_unique. rewrite HM2. unfold F64.prec.
    change (2 ^ (53 - 1)) with (2 ^ 23 * 2 ^ 29).
    change (2 ^ 53) with (2 ^ 24 * 2 ^ 29). lia. }
  (* the product with the double 0.7 *)
  unfold F64.mul.
  destruct (SFmul_normal F64.prec F64.emax (negb s) false M2 6305039478318694
              (eg + -24 + j1 - 29) (-53)
              ltac:(unfold F64.prec; lia) HdM2 eq_refl
              ltac:(unfold emin, F64.prec, F64.emax; lia)
              ltac:(unfold F64.prec, F64.emax; lia))
    as (m3 & k3 & j3 & -> & Hd3 & Hk3 & Hp3 & Hj3 & Hn3).
  rewrite xorb_false_r. unfold F64.prec in Hd3, Hk3, Hp3.
  rewrite HM2 in Hp3, Hn3.
  pose proof (digits2_pos_bounds m3) as Hm3. rewrite Hd3 in Hm3.
  change (53 - 1) with 52 in Hm3.
  replace (53 - 1) with 52 in Hk3 by lia.
  replace (k3 + 53 - 1) with (k3 + 52) in Hp3 by lia.
  replace (k1 + 24 - 1) with (k1 + 23) in Hp1 by lia.
  (* conversion to float *)
  unfold float_of_double, F32.round.
  pose proof (binary_round_normal F32.prec F32.emax (negb s) m3
                (eg + -24 + j1 - 29 + -53 + j3)
                ltac:(unfold F32.prec; lia)) as H4.
  cbv zeta in H4. rewrite Hd3 in H4.
  destruct (H4 ltac:(unfold F32.prec; lia)
               ltac:(unfold emin, F32.prec, F32.emax; lia)
               ltac:(unfold F32.prec, F32.emax; lia))
    as (m4 & j4 & -> & Hd4 & Hj4 & Hn4).
  clear H4. unfold F32.prec in Hd4, Hj4, Hn4.
  change (53 - 24) with 29 in Hj4, Hn4.
  replace (29 + 1) with 30 in Hj4 by lia.
  pose proof (digits2_pos_bounds m4) as Hm4. rewrite Hd4 in Hm4.
  change (24 - 1) with 23 in Hm4.
  exists m4, (eg + -24 + j1 - 29 + -53 + j3 + j4).
  split; [reflexivity|]. split; [exact Hm4|]. split; [lia|].
  replace (eg + -24 + j1 - 29 + -53 + j3 + j4 - eg + 77)
    with (j1 + j3 + j4 - 29) by lia.
  exact (gain_arith (Z.pos mg) (Z.pos m1) (Z.pos m3) (Z.pos m4) k1 j1 k3 j3 j4
           Hmg Hm1 Hm3 Hm4 Hk1 Hp1 Hj1 Hn1 Hk3 Hp3 Hj3 Hn3 Hj4 Hn4).
Qed.

(** The comparison of [seek] on a [float]: by exponent, then by
    mantissa. *)
Lemma fgt_thresh_lex (s : bool) (m : positive) (e : Z) :
  fgt (SFabs (S754_finite s m e)) angular_speed_thresh =
    (-25 <? e) || ((e =? -25) && (10066330 <? Z.pos m)).
Proof.
  rewrite angular_speed_thresh_value.
  unfold fgt, SFltb. cbn [SFabs SFcompare].
  destruct (Z.compare_spec (-25) e) as [He|He|He].
  - subst e. rewrite Z.ltb_irrefl, Z.eqb_refl. cbn [orb andb].
    rewrite Pos.compare_cont_spec. unfold Pos.switch_Eq.
    rewrite Pos2Z.inj_compare.
    destruct (Z.compare_spec 10066330 (Z.pos m)); symmetry;
      [apply Z.ltb_ge; lia | apply Z.ltb_lt; lia | apply Z.ltb_ge; lia].
  - assert (H : (-25 <? e) = true) by (apply Z.ltb_lt; lia). now rewrite H.
  - assert (H : (-25 <? e) = false) by (apply Z.ltb_ge; lia).
    assert (H' : (e =? -25) = false) by (apply Z.eqb_neq; lia).
    now rewrite H, H'.
Qed.

(** X18. The steering law of [seek] on a normal offset
    [goal_x = (-1)^s * mg * 2^eg]. The raw command
    [(-1)^(negb s) * m4 * 2^E4] has the sign opposite to the offset
    and is the offset times the gain 11744051 * 6305039478318694 * 2^-77
    (about 0.49) up to a relative error of 2^-22. When it does not
    exceed [angular_speed_thresh] = 10066330 * 2^-25 in magnitude it is
    published as it is; otherwise a command of the same sign is
    published whose magnitude is the threshold up to one unit in the
    last place. The linear part is the constant
    7566047674630144 * 2^-56. *)
Theorem seek_steering_law (p : Perception) (out : list Twist)
    (s : bool) (mg : positive) (eg : Z) :
  goal_x p = S754_finite s mg eg ->
  F32.valid (goal_x p) = true ->
  -100 <= eg <= 100 ->
  exists (T : Twist) (c : spec_float) (m4 : positive) (E4 : Z),
    seek p out = out ++ [T] /\
    linear T = mkVector3 (S754_finite false 7566047674630144 (-56)) fzero fzero /\
    angular T = mkVector3 fzero fzero (double_of_float c) /\
    2 ^ 23 <= Z.pos m4 < 2 ^ 24 /\
    2 ^ 22 * Z.abs (Z.pos m4 * 2 ^ (E4 - eg + 77)
                    - Z.pos mg * (11744051 * 6305039478318694))
      <= Z.pos mg * (11744051 * 6305039478318694) /\
    (E4 < -25 \/ (E4 = -25 /\ Z.pos m4 <= 10066330) ->
       c = S754_finite (negb s) m4 E4) /\
    (-25 < E4 \/ (E4 = -25 /\ 10066330 < Z.pos m4) ->
       exists m3 : positive,
         c = S754_finite (negb s) m3 (-25) /\
         10066329 <= Z.pos m3 <= 10066331).
Proof.
  intros Hg Hv Heg. rewrite Hg in Hv.
  assert (Hmg : 2 ^ 23 <= Z.pos mg < 2 ^ 24).
  { unfold F32.valid, valid_binary, bounded in Hv.
    apply andb_true_iff in Hv. destruct Hv as [Hc _].
    apply (canonical_normal mg eg Hc). lia. }
  destruct (raw_angular_control_normal s mg eg Hmg Heg)
    as (m4 & E4 & Hraw & Hm4 & HE4 & Hgain).
  pose proof (float_of_double_valid
                (F64.mul (double_of_float
                            (F32.mul (SFopp (S754_finite s mg eg)) angular_speed))
                         (F64.lit 7 10))) as Hvr.
  change (F32.valid (raw_angular_control (S754_finite s mg eg)) = true) in Hvr.
  rewrite Hraw in Hvr.
  unfold seek, publish. rewrite Hg, Hraw.
  eexists. exists (limit_angular_control (S754_finite (negb s) m4 E4)), m4, E4.
  split; [reflexivity|]. cbn [linear angular].
  split; [vm_compute; reflexivity|]. split; [reflexivity|].
  split; [exact Hm4|]. split; [exact Hgain|].
  pose proof (fgt_thresh_lex (negb s) m4 E4) as Hlex.
  split.
  - intros Hle. unfold limit_angular_control. rewrite Hlex.
    assert (H1 : (-25 <? E4) = false) by (apply Z.ltb_ge; lia).
    assert (H2 : (E4 =? -25) && (10066330 <? Z.pos m4) = false).
    { destruct Hle as [Hlt | [-> Hm]].
      - assert (H : (E4 =? -25) = false) by (apply Z.eqb_neq; lia).
        now rewrite H.
      - apply andb_false_iff. right. apply Z.ltb_ge. lia. }
    now rewrite H1, H2.
  - intros Hgt.
    apply (limit_angular_control_saturated (negb s) m4 E4 Hvr).
    rewrite Hlex.
    destruct Hgt as [Hlt | [-> Hm]].
    + assert (H : (-25 <? E4) = true) by (apply Z.ltb_lt; lia). now rewrite H.
    + assert (H : (10066330 <? Z.pos m4) = true) by (apply Z.ltb_lt; lia).
      rewrite H. reflexivity.
Qed.

Lemma seek_steering_law_witness :
  let p := {| goal_found_flag := true; obstacle_found_flag := false;
              bumper_flag := false; goal_blob_area := 4000;
              goal_x := S754_finite true 13421773 (-25) |} in
  exists (T : Twist) (c : spec_float) (m4 : positive) (E4 : Z),
    seek p [] = [] ++ [T] /\
    linear T = mkVector3 (S754_finite false 7566047674630144 (-56)) fzero fzero /\
    angular T = mkVector3 fzero fzero (double_of_float c) /\
    2 ^ 23 <= Z.pos m4 < 2 ^ 24 /\
    2 ^ 22 * Z.abs (Z.pos m4 * 2 ^ (E4 - (-25) + 77)
                    - 13421773 * (11744051 * 6305039478318694))
      <= 13421773 * (11744051 * 6305039478318694) /\
    (E4 < -25 \/ (E4 = -25 /\ Z.pos m4 <= 10066330) ->
       c = S754_finite (negb true) m4 E4) /\
    (-25 < E4 \/ (E4 = -25 /\ 10066330 < Z.pos m4) ->
       exists m3 : positive,
         c = S754_finite (negb true) m3 (-25) /\
         10066329 <= Z.pos m3 <= 10066331).
Proof.
  intros p. apply (seek_steering_law p [] true 13421773 (-25)).
  - reflexivity.
  - vm_compute. reflexivity.
  - lia.
Defined.
